(** * C-Bitset: a shallow embedding of [bitset.c] / [bitset.h]

    The development follows the C source function by function.

    - [size_t] values are integers of [Z] in [0, 2^64); every [size_t]
      addition and multiplication of the source is followed by [wrap].
    - a [uint8_t] buffer is a [list Z] of bytes, a pointer to one is an
      [option] ([None] is [NULL]); reading or writing outside the buffer,
      dereferencing [NULL] and dividing by zero are undefined behaviour.
    - [BITSET_ASSERT] depends on the build: with [BITSET_DEBUG_MODE] it
      prints its message and raises the debug-break signal ([SIGTRAP] or
      [SIGABRT], whose default action ends the process, so the call ends
      there); without it the macro expands to nothing.
    - every function returns a [result]: the value (for a [void] function
      that writes through a pointer, the new contents of the pointee), a
      trap carrying the message of the assertion that fired, or undefined
      behaviour. *)

From Stdlib Require Import ZArith Lia String Ascii Bool DecimalString.
From stdpp Require Import base list.

Local Open Scope string_scope.
Local Open Scope Z_scope.

(** ** Outcomes of a call *)

Inductive result (A : Type) : Type :=
| Ok (a : A)           (* control returns to the caller *)
| Trap (msg : string)  (* BITSET_ASSERT printed [msg] and raised its signal *)
| Undefined.           (* undefined behaviour of the C program *)

Arguments Ok {A} a.
Arguments Trap {A} msg.
Arguments Undefined {A}.

Definition bind {A B : Type} (r : result A) (k : A -> result B) : result B :=
  match r with
  | Ok a => k a
  | Trap msg => Trap msg
  | Undefined => Undefined
  end.

Declare Scope result_scope.
Delimit Scope result_scope with result.
Notation "'do' x <- r ; k" := (bind r (fun x => k))
  (at level 10, x name, r at level 100, k at level 200) : result_scope.
Notation "'do_' r ; k" := (bind r (fun _ => k))
  (at level 10, r at level 100, k at level 200) : result_scope.
Local Open Scope result_scope.

(** ** Machine integers *)

Definition SIZE_BITS : Z := 64.
Definition SIZE_MAX : Z := 2 ^ SIZE_BITS - 1.

(** Reduction of a [size_t] result modulo [2^64]. *)
Definition wrap (z : Z) : Z := z mod 2 ^ SIZE_BITS.

(** Storing an [int] into a [uint8_t]. *)
Definition to_u8 (z : Z) : Z := z mod 256.

(** Conversion of an [int] operand to [size_t] (usual arithmetic
    conversions of [size_t % int]). *)
Definition int_to_size (z : Z) : Z := wrap z.

Definition is_size (z : Z) : Prop := 0 <= z <= SIZE_MAX.
Definition is_byte (z : Z) : Prop := 0 <= z < 256.

(** [a / b] and [a % b] on [size_t]: undefined for a zero divisor. *)
Definition size_div (a b : Z) : result Z :=
  if b =? 0 then Undefined else Ok (a / b).
Definition size_mod (a b : Z) : result Z :=
  if b =? 0 then Undefined else Ok (a mod b).

(** ** Memory *)

(** A pointer to a [uint8_t] array. *)
Definition buffer : Type := option (list Z).

(** [p[i]] as an rvalue, for any element type. *)
Definition load {A : Type} (p : option (list A)) (i : Z) : result A :=
  match p with
  | None => Undefined
  | Some l =>
      if i <? 0 then Undefined
      else match l !! Z.to_nat i with
           | Some x => Ok x
           | None => Undefined
           end
  end.

(** [p[i] = v]. *)
Definition store {A : Type} (p : option (list A)) (i : Z) (v : A)
  : result (option (list A)) :=
  match p with
  | None => Undefined
  | Some l =>
      if (0 <=? i) && (i <? Z.of_nat (length l))
      then Ok (Some (<[Z.to_nat i := v]> l))
      else Undefined
  end.

(** [for (size_t i = lo; i < lo + count; i++) body], on a state [S]. *)
Fixpoint for_range {S : Type} (count : nat) (i : Z)
    (body : Z -> S -> result S) (s : S) : result S :=
  match count with
  | O => Ok s
  | Datatypes.S count' => do s' <- body i s; for_range count' (i + 1) body s'
  end.

(** [for (size_t i = 0; i < n; i++) body]. *)
Definition for_upto {S : Type} (n : Z) (body : Z -> S -> result S) (s : S)
  : result S :=
  for_range (Z.to_nat n) 0 body s.

(** ** The structure *)

Record BitSet : Type := mkBitSet {
  bits : buffer;   (* uint8_t *bits *)
  bit_len : Z      (* size_t bit_len, length in bits *)
}.

(** A [BitSet *] argument: [None] is [NULL]. *)
Definition BitSet_ptr : Type := option BitSet.

Definition deref (p : BitSet_ptr) : result BitSet :=
  match p with
  | Some bs => Ok bs
  | None => Undefined
  end.

Definition non_null {A : Type} (p : option A) : bool :=
  match p with
  | Some _ => true
  | None => false
  end.

Section Implementation.

(** [BITSET_DEBUG_MODE]. *)
Variable debug : bool.

(** The allocator: [alloc n] tells whether a request for [n] bytes is
    granted, [garbage] is what a fresh block holds at each offset. *)
Variable alloc : Z -> bool.
Variable garbage : nat -> Z.

Definition malloc (size : Z) : buffer :=
  if alloc size then Some (garbage <$> seq 0 (Z.to_nat size)) else None.

Definition calloc (nmemb size : Z) : buffer :=
  if (nmemb * size <=? SIZE_MAX) && alloc (nmemb * size)
  then Some (replicate (Z.to_nat (nmemb * size)) 0)
  else None.

Definition BITSET_ASSERT (cond : bool) (msg : string) : result unit :=
  if debug then (if cond then Ok tt else Trap msg) else Ok tt.

(** *** Index mapping *)

(** The loop [for (size_t i = num_dims; i-- > 0;)] of [linear_index]:
    [i] is the counter before the test. *)
Fixpoint linear_index_loop (i : nat) (dims indices : option (list Z))
    (index multiplier : Z) : result Z :=
  match i with
  | O => Ok index
  | S i' =>
      do x <- load indices (Z.of_nat i');
      let index := wrap (index + wrap (x * multiplier)) in
      do d <- load dims (Z.of_nat i');
      let multiplier := wrap (multiplier * d) in
      linear_index_loop i' dims indices index multiplier
  end.

Definition linear_index (num_dims : Z) (dims indices : option (list Z))
  : result Z :=
  linear_index_loop (Z.to_nat num_dims) dims indices 0 1.

(** State of the loop of [inverse_linear_index]: the running [index] and
    the output array. *)
Definition inverse_linear_index_body (num_dims : Z) (dims : option (list Z))
    (i : Z) (st : Z * option (list Z)) : result (Z * option (list Z)) :=
  let '(index, indices) := st in
  let dim_index := wrap (wrap (num_dims - 1) - i) in
  do d <- load dims dim_index;
  do r <- size_mod index d;
  do indices <- store indices dim_index r;
  do d <- load dims dim_index;
  do q <- size_div index d;
  Ok (q, indices).

Definition inverse_linear_index (num_dims : Z) (dims : option (list Z))
    (index : Z) (indices : option (list Z)) : result (option (list Z)) :=
  do st <- for_upto num_dims (inverse_linear_index_body num_dims dims)
             (index, indices);
  Ok (snd st).

(** *** Construction *)

Definition BitSet_get_byte_len (bs : BitSet_ptr) : result Z :=
  do_ BITSET_ASSERT (non_null bs) "BitSet_get_byte_len: BitSet is NULL";
  do b <- deref bs;
  Ok (wrap (bit_len b + 7) / 8).

Definition BitSet_init (bs : BitSet_ptr) (n : Z) : result BitSet :=
  do_ BITSET_ASSERT (non_null bs) "BitSet_init: BitSet is NULL";
  do b <- deref bs;
  let b := mkBitSet (bits b) n in
  do len <- BitSet_get_byte_len (Some b);
  let b := mkBitSet (calloc len 1) (bit_len b) in
  do_ BITSET_ASSERT (non_null (bits b)) "BitSet_init: Memory allocation failed";
  Ok b.

(** *** Bulk fills *)

Definition BitSet_set_all (bs : BitSet_ptr) : result BitSet :=
  do_ BITSET_ASSERT (non_null bs) "BitSet_set_all: BitSet is NULL";
  do byte_len <- BitSet_get_byte_len bs;
  do b <- deref bs;
  do p <- for_upto byte_len (fun i p => store p i 255) (bits b);
  Ok (mkBitSet p (bit_len b)).

Definition BitSet_clear_all (bs : BitSet_ptr) : result BitSet :=
  do_ BITSET_ASSERT (non_null bs) "BitSet_clear_all: BitSet is NULL";
  do byte_len <- BitSet_get_byte_len bs;
  do b <- deref bs;
  do p <- for_upto byte_len (fun i p => store p i 0) (bits b);
  Ok (mkBitSet p (bit_len b)).

(** *** Single bits *)

(** [p[i] = (uint8_t) f (p[i])], the compound assignments on a byte. *)
Definition update_byte (f : Z -> Z) (p : buffer) (i : Z) : result buffer :=
  do x <- load p i;
  store p i (to_u8 (f x)).

Definition BitSet_set (bs : BitSet_ptr) (index : Z) : result BitSet :=
  do_ BITSET_ASSERT (non_null bs) "BitSet_set: BitSet is NULL";
  do b <- deref bs;
  do_ BITSET_ASSERT (index <? bit_len b) "BitSet_set: Index out of bounds";
  do p <- update_byte (fun x => Z.lor x (Z.shiftl 1 (index mod 8)))
            (bits b) (index / 8);
  Ok (mkBitSet p (bit_len b)).

Definition BitSet_clear (bs : BitSet_ptr) (index : Z) : result BitSet :=
  do_ BITSET_ASSERT (non_null bs) "BitSet_clear: BitSet is NULL";
  do b <- deref bs;
  do_ BITSET_ASSERT (index <? bit_len b) "BitSet_clear: Index out of bounds";
  do p <- update_byte (fun x => Z.land x (Z.lnot (Z.shiftl 1 (index mod 8))))
            (bits b) (index / 8);
  Ok (mkBitSet p (bit_len b)).

Definition BitSet_get (bs : BitSet_ptr) (index : Z) : result Z :=
  do_ BITSET_ASSERT (non_null bs) "BitSet_get: BitSet is NULL";
  do b <- deref bs;
  do_ BITSET_ASSERT (index <? bit_len b) "BitSet_get: Index out of bounds";
  do x <- load (bits b) (index / 8);
  Ok (Z.land (Z.shiftr x (index mod 8)) 1).

Definition BitSet_flip (bs : BitSet_ptr) (index : Z) : result BitSet :=
  do_ BITSET_ASSERT (non_null bs) "BitSet_flip: BitSet is NULL";
  do b <- deref bs;
  do_ BITSET_ASSERT (index <? bit_len b) "BitSet_flip: Index out of bounds";
  do p <- update_byte (fun x => Z.lxor x (Z.shiftl 1 (index mod 8)))
            (bits b) (index / 8);
  Ok (mkBitSet p (bit_len b)).

(** *** Release and copy *)

Definition BitSet_free (bs : BitSet_ptr) : result BitSet :=
  do_ BITSET_ASSERT (non_null bs) "BitSet_free: BitSet is NULL";
  do b <- deref bs;
  Ok (mkBitSet None 0).

(** [BitSet_copy_construct (dest, src)] for [dest] and [src] two different
    objects: the writes through [dest] leave [*src] as it is.  The value is
    the new contents of [*dest]. *)
Definition BitSet_copy_construct (dest src : BitSet_ptr) : result BitSet :=
  do_ BITSET_ASSERT (non_null dest && non_null src)
        "BitSet_copy_construct: BitSet is NULL";
  do byte_len <- BitSet_get_byte_len src;
  do d <- deref dest;
  let d := mkBitSet (malloc (wrap (byte_len * 1))) (bit_len d) in
  do_ BITSET_ASSERT (non_null (bits d))
        "BitSet_copy_construct: Memory allocation failed";
  do s <- deref src;
  let d := mkBitSet (bits d) (bit_len s) in
  do p <- for_upto byte_len
            (fun i p => do x <- load (bits s) i; store p i x) (bits d);
  Ok (mkBitSet p (bit_len d)).

(** [BitSet_copy_construct (bs, bs)], the same function called with one
    object in both places (the self-assignment of the C++ wrapper does
    it): [dest->bits = malloc (...)] is also an assignment to [src->bits],
    so the loop reads the fresh block it writes, and
    [dest->bit_len = src->bit_len] assigns the field to itself.  Bytes of
    a fresh block are read as the unspecified values [garbage] gives. *)
Definition BitSet_copy_construct_aliased (bs : BitSet_ptr) : result BitSet :=
  do_ BITSET_ASSERT (non_null bs && non_null bs)
        "BitSet_copy_construct: BitSet is NULL";
  do byte_len <- BitSet_get_byte_len bs;
  do b <- deref bs;
  let b := mkBitSet (malloc (wrap (byte_len * 1))) (bit_len b) in
  do_ BITSET_ASSERT (non_null (bits b))
        "BitSet_copy_construct: Memory allocation failed";
  let b := mkBitSet (bits b) (bit_len b) in
  do p <- for_upto byte_len
            (fun i p => do x <- load p i; store p i x) (bits b);
  Ok (mkBitSet p (bit_len b)).

(** *** Boolean algebra *)

(** The common shape of [BitSet_or], [BitSet_and] and [BitSet_xor]:
    [dest->bits[i] = (uint8_t) (dest->bits[i] op src->bits[i])] for the
    first [byte_len] bytes.  Iteration [i] reads both bytes at [i] before
    it writes, and touches no other place, so when [dest] and [src] are
    the same BitSet the outcome is the one computed here from the bytes
    at entry. *)
Definition combine_bytes (op : Z -> Z -> Z) (byte_len : Z)
    (dest src : buffer) : result buffer :=
  for_upto byte_len
    (fun i p => do x <- load p i; do y <- load src i;
                store p i (to_u8 (op x y))) dest.

(** [dest->bit_len < src->bit_len ? dest : src]. *)
Definition shorter (dest src : BitSet_ptr) : result BitSet_ptr :=
  do d <- deref dest;
  do s <- deref src;
  Ok (if bit_len d <? bit_len s then dest else src).

Definition BitSet_or (dest src : BitSet_ptr) : result BitSet :=
  do_ BITSET_ASSERT (non_null dest && non_null src)
        "BitSet_or: BitSet is NULL";
  do sel <- shorter dest src;
  do byte_len <- BitSet_get_byte_len sel;
  do d <- deref dest;
  do s <- deref src;
  do p <- combine_bytes Z.lor byte_len (bits d) (bits s);
  Ok (mkBitSet p (bit_len d)).

Definition BitSet_and (dest src : BitSet_ptr) : result BitSet :=
  do_ BITSET_ASSERT (non_null dest && non_null src)
        "BitSet_and: BitSet is NULL";
  do sel <- shorter dest src;
  do byte_len <- BitSet_get_byte_len sel;
  do d <- deref dest;
  do s <- deref src;
  do p <- combine_bytes Z.land byte_len (bits d) (bits s);
  Ok (mkBitSet p (bit_len d)).

Definition BitSet_xor (dest src : BitSet_ptr) : result BitSet :=
  do_ BITSET_ASSERT (non_null dest && non_null src)
        "BitSet_xor: BitSet is NULL";
  do sel <- shorter dest src;
  do byte_len <- BitSet_get_byte_len sel;
  do d <- deref dest;
  do s <- deref src;
  do p <- combine_bytes Z.lxor byte_len (bits d) (bits s);
  Ok (mkBitSet p (bit_len d)).

Definition BitSet_not (bs : BitSet_ptr) : result BitSet :=
  do_ BITSET_ASSERT (non_null bs) "BitSet_not: BitSet is NULL";
  do byte_len <- BitSet_get_byte_len bs;
  do b <- deref bs;
  do p <- for_upto byte_len (fun i p => update_byte Z.lnot p i) (bits b);
  Ok (mkBitSet p (bit_len b)).

(** *** Comparison *)

(** The loop of [BitSet_equals], which leaves the function with 0 at
    the first differing byte and falls through to [return 1]. *)
Fixpoint BitSet_equals_loop (count : nat) (i : Z) (p1 p2 : buffer)
  : result Z :=
  match count with
  | O => Ok 1
  | S count' =>
      do x <- load p1 i;
      do y <- load p2 i;
      if negb (x =? y) then Ok 0
      else BitSet_equals_loop count' (i + 1) p1 p2
  end.

Definition BitSet_equals (bs1 bs2 : BitSet_ptr) : result Z :=
  do_ BITSET_ASSERT (non_null bs1 && non_null bs2)
        "BitSet_equals: BitSet is NULL";
  do b1 <- deref bs1;
  do b2 <- deref bs2;
  if negb (bit_len b1 =? bit_len b2) then Ok 0
  else
    do byte_len <- BitSet_get_byte_len bs1;
    BitSet_equals_loop (Z.to_nat byte_len) 0 (bits b1) (bits b2).

(** *** Printing *)

(** What [printf("%d", v)] writes for [v >= 0]. *)
Definition fmt_d (v : Z) : string :=
  NilZero.string_of_uint (N.to_uint (Z.to_N v)).

(** What [printf("\n")] writes. *)
Definition nl : string := String (ascii_of_nat 10) EmptyString.

(** [BitSet_print] returns the characters written to standard output.
    [newline] is an [int], converted to [size_t] for [%]. *)
Definition BitSet_print_body (bs : BitSet_ptr) (newline : Z)
    (i : Z) (out : string) : result string :=
  do v <- BitSet_get bs i;
  let out := out ++ fmt_d v in
  do r <- size_mod (wrap (i + 1)) (int_to_size newline);
  if r =? 0 then Ok (out ++ nl) else Ok out.

Definition BitSet_print (bs : BitSet_ptr) (newline : Z) : result string :=
  do_ BITSET_ASSERT (non_null bs) "BitSet_print: BitSet is NULL";
  do b <- deref bs;
  do out <- for_upto (bit_len b) (BitSet_print_body bs newline) EmptyString;
  Ok (out ++ nl).

End Implementation.

Local Close Scope string_scope.

(** ** Specification vocabulary *)

(** Byte [j] of a buffer, 0 outside it. *)
Definition byte_at (l : list Z) (j : Z) : Z := default 0 (l !! Z.to_nat j).

(** Bit [p] of a buffer: bit [p mod 8], counted from the least-significant
    end, of byte [p / 8]. *)
Definition bit_of (l : list Z) (p : Z) : bool :=
  Z.testbit (byte_at l (p / 8)) (p mod 8).

(** The state [BitSet_init] leaves behind for a bit count whose byte length
    is computed without wrap-around: storage of exactly [ceil(bit_len/8)]
    bytes, and operations keep it. *)
Definition initialized (bs : BitSet) : Prop :=
  0 <= bit_len bs <= SIZE_MAX - 7 /\
  exists l, bits bs = Some l /\
            Z.of_nat (length l) = (bit_len bs + 7) / 8 /\
            Forall is_byte l.

(** [k = ceil(n / 8)]. *)
Definition is_ceil8 (n k : Z) : Prop := 8 * (k - 1) < n <= 8 * k.

(** An allocator that grants every request, one that refuses all, and a
    destination structure that was never initialised. *)
Definition grant_all (n : Z) : bool := true.
Definition refuse_all (n : Z) : bool := false.
Definition blank : BitSet := mkBitSet None 0.

(** The postcondition of [BitSet_init (n)]: it returns, the byte length of
    the BitSet is [ceil(n / 8)], and every bit below [n] reads 0. *)
Definition init_postcondition (debug : bool) (alloc : Z -> bool)
    (dest : BitSet) (n : Z) : Prop :=
  exists bs k,
    BitSet_init debug alloc (Some dest) n = Ok bs /\
    BitSet_get_byte_len debug (Some bs) = Ok k /\
    is_ceil8 n k /\
    forall index, 0 <= index < n -> BitSet_get debug (Some bs) index = Ok 0.

(** Control comes back to the caller: the least that handing it a
    recoverable result takes. *)
Definition returns_to_caller {A : Type} (r : result A) : Prop :=
  exists a, r = Ok a.

(** Recoverable allocation failure of both constructors, for an allocator
    that grants nothing: in every build the caller gets control back. *)
Definition allocation_failure_recoverable (n : Z) (src : BitSet) : Prop :=
  forall debug garbage,
    returns_to_caller (BitSet_init debug refuse_all (Some blank) n) /\
    returns_to_caller
      (BitSet_copy_construct debug refuse_all garbage (Some blank) (Some src)).

(** [l'] is [ld] with each of its first [count] bytes combined, by [op],
    with the byte of [ls] at the same place, and the rest as it was. *)
Definition combined (op : Z -> Z -> Z) (count : Z) (ld ls l' : list Z) : Prop :=
  length l' = length ld /\
  forall (j : nat) x, ld !! j = Some x ->
    l' !! j = Some (if Z.of_nat j <? count
                    then op x (byte_at ls (Z.of_nat j)) else x).

(** Number of cells of an array of the given extents. *)
Definition product (dims : list Z) : Z := foldr Z.mul 1 dims.

(** Row-major offset of a coordinate tuple, last dimension fastest,
    without any reduction. *)
Fixpoint row_major (dims indices : list Z) : Z :=
  match dims, indices with
  | _ :: dims', x :: indices' => x * product dims' + row_major dims' indices'
  | _, _ => 0
  end.

(** Coordinates of [index], computed from the last dimension inwards;
    [rdims] is the list of extents in reverse. *)
Fixpoint coords_rev (rdims : list Z) (index : Z) : list Z :=
  match rdims with
  | [] => []
  | d :: rdims' => index mod d :: coords_rev rdims' (index / d)
  end.

Definition coords (dims : list Z) (index : Z) : list Z :=
  reverse (coords_rev (reverse dims) index).

Definition in_extent (x d : Z) : Prop := 0 <= x < d.

(** The round trip on [dims] and [indices]: [linear_index] returns, and
    [inverse_linear_index] turns what it returned back into [indices]. *)
Definition index_roundtrip (dims indices out : list Z) : Prop :=
  exists index,
    linear_index (Z.of_nat (length dims)) (Some dims) (Some indices)
    = Ok index /\
    inverse_linear_index (Z.of_nat (length dims)) (Some dims) index (Some out)
    = Ok (Some indices).

(** The largest [int]. *)
Definition INT_MAX : Z := 2 ^ 31 - 1.

(** The character written for a bit. *)
Definition bit_char (b : bool) : string := (if b then "1" else "0")%string.

(** What is written for index [i]: its bit, then a line break when
    [i + 1] is a multiple of the group size. *)
Definition render_index (l : list Z) (group : Z) (i : Z) : string :=
  (bit_char (bit_of l i)
   ++ (if ((i + 1) mod group =? 0)%Z then nl else EmptyString))%string.

(** The text for indices [0 .. n - 1] and the closing line break. *)
Definition render (l : list Z) (n group : Z) : string :=
  (foldr String.append EmptyString (render_index l group <$> seqZ 0 n)
   ++ nl)%string.

(** ** The demonstration program *)

(** [main] of [main.c].  [stack1] and [stack2] are what the two [BitSet]
    variables hold before they are set up; [alloc1] answers the request of
    [BitSet_init], [alloc2] that of [BitSet_copy_construct].  The value is
    what was written to standard output and the exit status; [srand] has
    no effect on either. *)
Definition main (debug : bool) (alloc1 alloc2 : Z -> bool)
    (garbage : nat -> Z) (stack1 stack2 : BitSet) : result (string * Z) :=
  do bs <- BitSet_init debug alloc1 (Some stack1) 100;
  let dims := Some [2; 2] in
  let num_dims := 2 in
  let vec := Some [1; 1] in
  do index <- linear_index num_dims dims vec;
  do bs <- BitSet_set debug (Some bs) index;
  do out1 <- BitSet_print debug (Some bs) 10;
  let out := (out1 ++ nl)%string in
  do bs2 <- BitSet_copy_construct debug alloc2 garbage (Some stack2) (Some bs);
  do out2 <- BitSet_print debug (Some bs2) 10;
  let out := (out ++ out2)%string in
  do bs <- BitSet_free debug (Some bs);
  do bs2 <- BitSet_free debug (Some bs2);
  Ok (out, 0).

(** Lines of text, each closed by a line break. *)
Definition lines (rows : list string) : string :=
  foldr (fun row rest => (row ++ nl ++ rest)%string) EmptyString rows.

(** The complement of a byte, as [BitSet_not] stores it. *)
Definition not_byte (x : Z) : Z := to_u8 (Z.lnot x).

(** [f] is a write to one bit: on an initialized BitSet and for an index
    below [bit_len] it returns a BitSet of the same [bit_len] whose bit
    [index] is [g] of what it was and whose other bits are as before. *)
Definition bit_write (f : BitSet_ptr -> Z -> result BitSet) (g : bool -> bool)
  : Prop :=
  forall (bs : BitSet) (l : list Z) (index : Z),
    initialized bs -> bits bs = Some l -> 0 <= index < bit_len bs ->
    exists l',
      f (Some bs) index = Ok (mkBitSet (Some l') (bit_len bs)) /\
      initialized (mkBitSet (Some l') (bit_len bs)) /\
      forall p, 0 <= p ->
        bit_of l' p = if p =? index then g (bit_of l index) else bit_of l p.

(** The three single-bit writers of one build. *)
Definition bit_writers (debug : bool)
  : list (BitSet_ptr -> Z -> result BitSet) :=
  [BitSet_set debug; BitSet_clear debug; BitSet_flip debug].

(** Number of storage bytes [or], [and] and [xor] go through. *)
Definition combine_count (dest src : BitSet) : Z :=
  (Z.min (bit_len dest) (bit_len src) + 7) / 8.

(** [f] combines bit by bit with [bop]: on initialized operands it returns
    an initialized BitSet with the [bit_len] of [dest], whose bits below
    [8 * combine_count dest src] are [bop] of the bits of [dest] and of
    [src] at the same place and whose later bits are those of [dest]. *)
Definition bit_combiner (f : BitSet_ptr -> BitSet_ptr -> result BitSet)
    (bop : bool -> bool -> bool) : Prop :=
  forall (dest src : BitSet) (ld ls : list Z),
    initialized dest -> initialized src ->
    bits dest = Some ld -> bits src = Some ls ->
    exists l',
      f (Some dest) (Some src) = Ok (mkBitSet (Some l') (bit_len dest)) /\
      initialized (mkBitSet (Some l') (bit_len dest)) /\
      forall p, 0 <= p ->
        bit_of l' p = if p <? 8 * combine_count dest src
                      then bop (bit_of ld p) (bit_of ls p) else bit_of ld p.

(** The three combining operations of one build, each with the operation
    on bits it stands for. *)
Definition combiners (debug : bool)
  : list ((BitSet_ptr -> BitSet_ptr -> result BitSet)
          * (bool -> bool -> bool)) :=
  [(BitSet_or debug, orb); (BitSet_and debug, andb); (BitSet_xor debug, xorb)].

(** ** Basic facts *)

(** Closes [initialized] on a BitSet given by its bytes. *)
Ltac concrete_initialized l :=
  split; [vm_compute; split; discriminate |];
  exists l; split_and!; [reflexivity | reflexivity |];
  repeat constructor; unfold is_byte; lia.

Lemma wrap_small z : 0 <= z <= SIZE_MAX -> wrap z = z.
Proof. unfold wrap, SIZE_MAX. intros H. apply Z.mod_small. lia. Qed.

Lemma byte_len_exact n :
  0 <= n <= SIZE_MAX - 7 -> wrap (n + 7) / 8 = (n + 7) / 8.
Proof. intros H. rewrite wrap_small; [done | lia]. Qed.

Lemma ceil8_div n : is_ceil8 n ((n + 7) / 8).
Proof.
  unfold is_ceil8.
  pose proof (Z.div_mod (n + 7) 8 ltac:(lia)).
  pose proof (Z.mod_pos_bound (n + 7) 8 ltac:(lia)). lia.
Qed.

Lemma index_byte_in_range n index :
  0 <= index < n -> 0 <= index / 8 < (n + 7) / 8.
Proof.
  intros H. split; [apply Z.div_pos; lia |].
  apply Z.div_lt_upper_bound; [lia |].
  pose proof (Z.div_mod (n + 7) 8 ltac:(lia)).
  pose proof (Z.mod_pos_bound (n + 7) 8 ltac:(lia)). lia.
Qed.

Lemma load_Some {A} (l : list A) (i : Z) x :
  0 <= i -> l !! Z.to_nat i = Some x -> load (Some l) i = Ok x.
Proof.
  intros Hi Hx. unfold load.
  destruct (Z.ltb_spec i 0); [lia |]. by rewrite Hx.
Qed.

Lemma store_Some {A} (l : list A) (i : Z) v :
  0 <= i < Z.of_nat (length l) ->
  store (Some l) i v = Ok (Some (<[Z.to_nat i := v]> l)).
Proof.
  intros Hi. unfold store.
  destruct (Z.leb_spec 0 i); [| lia].
  destruct (Z.ltb_spec i (Z.of_nat (length l))); [done | lia].
Qed.

Lemma lookup_in_range {A} (l : list A) (i : Z) :
  0 <= i < Z.of_nat (length l) -> exists x, l !! Z.to_nat i = Some x.
Proof.
  intros Hi. apply lookup_lt_is_Some_2. lia.
Qed.

Lemma byte_at_Some l j x : l !! Z.to_nat j = Some x -> byte_at l j = x.
Proof. intros H. unfold byte_at. by rewrite H. Qed.

Lemma for_range_succ {S} count i (body : Z -> S -> result S) s :
  for_range (Datatypes.S count) i body s
  = (do s' <- body i s; for_range count (i + 1) body s').
Proof. reflexivity. Qed.

(** Filling the first [count] bytes, starting at byte [i], with [v]. *)
Lemma fill_range (v : Z) : forall count i (l : list Z),
  0 <= i -> i + Z.of_nat count <= Z.of_nat (length l) ->
  for_range count i (fun i p => store p i v) (Some l)
  = Ok (Some (take (Z.to_nat i) l ++ replicate count v
              ++ drop (Z.to_nat i + count) l)).
Proof.
  induction count as [| count IH]; intros i l Hi Hlen.
  - simpl. rewrite Nat.add_0_r, take_drop. done.
  - rewrite for_range_succ, store_Some by lia. simpl.
    rewrite IH by (rewrite ?length_insert; lia).
    do 2 f_equal.
    replace (Z.to_nat (i + 1)) with (Datatypes.S (Z.to_nat i)) by lia.
    assert (Hlt : (Z.to_nat i < length l)%nat) by lia.
    rewrite (take_S_r _ _ v) by (apply list_lookup_insert_eq; lia).
    rewrite take_insert_ge by lia.
    rewrite drop_insert_lt by lia.
    rewrite <- app_assoc. simpl.
    by rewrite Nat.add_succ_r.
Qed.

Lemma fill_all (v : Z) n (l : list Z) :
  Z.of_nat (length l) = n ->
  for_upto n (fun i p => store p i v) (Some l)
  = Ok (Some (replicate (Z.to_nat n) v)).
Proof.
  intros Hn. unfold for_upto. rewrite fill_range by lia.
  simpl. rewrite drop_ge by lia. by rewrite app_nil_r.
Qed.

Lemma BITSET_ASSERT_true debug msg : BITSET_ASSERT debug true msg = Ok tt.
Proof. by destruct debug. Qed.

Lemma update_byte_Some f (l : list Z) i x :
  0 <= i -> l !! Z.to_nat i = Some x ->
  update_byte f (Some l) i = Ok (Some (<[Z.to_nat i := to_u8 (f x)]> l)).
Proof.
  intros Hi Hx. unfold update_byte. rewrite (load_Some _ _ x) by done. simpl.
  apply store_Some. split; [done |].
  apply lookup_lt_Some in Hx. lia.
Qed.

(** ** Bits of a byte *)

Lemma to_u8_is_byte z : is_byte (to_u8 z).
Proof. unfold is_byte, to_u8. apply Z.mod_pos_bound. lia. Qed.

Lemma to_u8_id x : is_byte x -> to_u8 x = x.
Proof. unfold is_byte, to_u8. intros H. by apply Z.mod_small. Qed.

Lemma testbit_to_u8 z j :
  Z.testbit (to_u8 z) j = (j <? 8) && Z.testbit z j.
Proof. unfold to_u8. change 256 with (2 ^ 8). by apply Z.testbit_mod_pow2. Qed.

Lemma byte_testbit_high x j : is_byte x -> 8 <= j -> Z.testbit x j = false.
Proof.
  intros Hx Hj. rewrite <- (to_u8_id x Hx), testbit_to_u8.
  destruct (Z.ltb_spec j 8); [lia | done].
Qed.

Lemma testbit_mask k j : 0 <= k -> Z.testbit (Z.shiftl 1 k) j = (k =? j).
Proof. intros Hk. rewrite Z.shiftl_1_l. by apply Z.pow2_bits_eqb. Qed.

(** [(x >> k) & 1] reads bit [k]. *)
Lemma shift_and_one x k :
  0 <= k -> Z.land (Z.shiftr x k) 1 = Z.b2z (Z.testbit x k).
Proof.
  intros Hk. change 1 with (Z.ones 1) at 1.
  rewrite Z.land_ones by lia. change (2 ^ 1) with 2.
  rewrite <- Z.bit0_mod, Z.shiftr_spec by lia. done.
Qed.

Lemma testbit_set_byte x k j :
  is_byte x -> 0 <= k < 8 -> 0 <= j ->
  Z.testbit (to_u8 (Z.lor x (Z.shiftl 1 k))) j
  = if k =? j then true else Z.testbit x j.
Proof.
  intros Hx Hk Hj. rewrite testbit_to_u8, Z.lor_spec, testbit_mask by lia.
  destruct (Z.eqb_spec k j), (Z.ltb_spec j 8); try lia; simpl;
    rewrite ?(byte_testbit_high x j) by done;
    by destruct (Z.testbit x j).
Qed.

Lemma testbit_clear_byte x k j :
  is_byte x -> 0 <= k < 8 -> 0 <= j ->
  Z.testbit (to_u8 (Z.land x (Z.lnot (Z.shiftl 1 k)))) j
  = if k =? j then false else Z.testbit x j.
Proof.
  intros Hx Hk Hj.
  rewrite testbit_to_u8, Z.land_spec, Z.lnot_spec, testbit_mask by lia.
  destruct (Z.eqb_spec k j), (Z.ltb_spec j 8); try lia; simpl;
    rewrite ?(byte_testbit_high x j) by done;
    by destruct (Z.testbit x j).
Qed.

Lemma testbit_flip_byte x k j :
  is_byte x -> 0 <= k < 8 -> 0 <= j ->
  Z.testbit (to_u8 (Z.lxor x (Z.shiftl 1 k))) j
  = if k =? j then negb (Z.testbit x j) else Z.testbit x j.
Proof.
  intros Hx Hk Hj. rewrite testbit_to_u8, Z.lxor_spec, testbit_mask by lia.
  destruct (Z.eqb_spec k j), (Z.ltb_spec j 8); try lia; simpl;
    rewrite ?(byte_testbit_high x j) by done;
    by destruct (Z.testbit x j).
Qed.

(** Flipping the same bit of a byte twice gives the byte back. *)
Lemma flip_byte_twice x k :
  is_byte x -> 0 <= k < 8 ->
  to_u8 (Z.lxor (to_u8 (Z.lxor x (Z.shiftl 1 k))) (Z.shiftl 1 k)) = x.
Proof.
  intros Hx Hk. apply Z.bits_inj'. intros j Hj.
  rewrite testbit_flip_byte, testbit_flip_byte by (done || apply to_u8_is_byte).
  destruct (k =? j); [apply negb_involutive | done].
Qed.

(** ** Bits of a buffer after one byte changed *)

Lemma index_split p index :
  (p =? index) = (p / 8 =? index / 8) && (index mod 8 =? p mod 8).
Proof.
  pose proof (Z.div_mod p 8 ltac:(lia)).
  pose proof (Z.div_mod index 8 ltac:(lia)).
  destruct (Z.eqb_spec p index) as [-> |].
  - by rewrite !Z.eqb_refl.
  - destruct (Z.eqb_spec (p / 8) (index / 8)),
      (Z.eqb_spec (index mod 8) (p mod 8)); simpl; (done || lia).
Qed.

Lemma bit_of_insert (l : list Z) index y p :
  0 <= index -> 0 <= p -> index / 8 < Z.of_nat (length l) ->
  bit_of (<[Z.to_nat (index / 8) := y]> l) p
  = if p / 8 =? index / 8 then Z.testbit y (p mod 8) else bit_of l p.
Proof.
  intros Hindex Hp Hlen. unfold bit_of, byte_at.
  pose proof (Z.div_pos index 8 Hindex ltac:(lia)).
  pose proof (Z.div_pos p 8 Hp ltac:(lia)).
  destruct (Z.eqb_spec (p / 8) (index / 8)) as [-> | Hne].
  - rewrite list_lookup_insert_eq by lia. done.
  - rewrite list_lookup_insert_ne by lia. done.
Qed.

Lemma byte_index_nonneg index : 0 <= index -> 0 <= index / 8.
Proof. intros H. apply Z.div_pos; lia. Qed.

Lemma byte_present (l : list Z) j :
  0 <= j < Z.of_nat (length l) -> l !! Z.to_nat j = Some (byte_at l j).
Proof.
  intros Hj. destruct (lookup_in_range l j Hj) as [x Hx].
  by rewrite (byte_at_Some _ _ _ Hx).
Qed.

(** ** Single-bit operations inside the buffer *)

Section SingleBit.

Variable debug : bool.
Variables (bs : BitSet) (l : list Z) (index : Z).
Hypothesis Hbits : bits bs = Some l.
Hypothesis Hindex : 0 <= index < bit_len bs.
Hypothesis Hbyte : index / 8 < Z.of_nat (length l).

Lemma in_bounds : (index <? bit_len bs) = true.
Proof. apply Z.ltb_lt. lia. Qed.

Lemma byte_index_present :
  0 <= index / 8 /\
  l !! Z.to_nat (index / 8) = Some (byte_at l (index / 8)).
Proof.
  assert (0 <= index / 8) by (apply byte_index_nonneg; lia).
  split; [done |]. apply byte_present. lia.
Qed.

Lemma BitSet_get_ok :
  BitSet_get debug (Some bs) index = Ok (Z.b2z (bit_of l index)).
Proof.
  unfold BitSet_get. simpl. rewrite in_bounds, !BITSET_ASSERT_true. simpl.
  destruct byte_index_present as [Hnonneg Hpresent].
  rewrite Hbits, (load_Some _ _ _ Hnonneg Hpresent). simpl.
  rewrite shift_and_one; [done |]. apply Z.mod_pos_bound. lia.
Qed.

Lemma BitSet_set_ok :
  BitSet_set debug (Some bs) index
  = Ok (mkBitSet
          (Some (<[Z.to_nat (index / 8) :=
                    to_u8 (Z.lor (byte_at l (index / 8))
                                 (Z.shiftl 1 (index mod 8)))]> l))
          (bit_len bs)).
Proof.
  unfold BitSet_set. simpl. rewrite in_bounds, !BITSET_ASSERT_true. simpl.
  rewrite Hbits.
  by rewrite (update_byte_Some _ _ _ _ (proj1 byte_index_present)
               (proj2 byte_index_present)).
Qed.

Lemma BitSet_clear_ok :
  BitSet_clear debug (Some bs) index
  = Ok (mkBitSet
          (Some (<[Z.to_nat (index / 8) :=
                    to_u8 (Z.land (byte_at l (index / 8))
                                  (Z.lnot (Z.shiftl 1 (index mod 8))))]> l))
          (bit_len bs)).
Proof.
  unfold BitSet_clear. simpl. rewrite in_bounds, !BITSET_ASSERT_true. simpl.
  rewrite Hbits.
  by rewrite (update_byte_Some _ _ _ _ (proj1 byte_index_present)
               (proj2 byte_index_present)).
Qed.

Lemma BitSet_flip_ok :
  BitSet_flip debug (Some bs) index
  = Ok (mkBitSet
          (Some (<[Z.to_nat (index / 8) :=
                    to_u8 (Z.lxor (byte_at l (index / 8))
                                  (Z.shiftl 1 (index mod 8)))]> l))
          (bit_len bs)).
Proof.
  unfold BitSet_flip. simpl. rewrite in_bounds, !BITSET_ASSERT_true. simpl.
  rewrite Hbits.
  by rewrite (update_byte_Some _ _ _ _ (proj1 byte_index_present)
               (proj2 byte_index_present)).
Qed.

End SingleBit.

Lemma initialized_byte_at bs l j :
  initialized bs -> bits bs = Some l -> is_byte (byte_at l j).
Proof.
  intros (_ & l' & Hl' & _ & Hall) Hl. assert (l' = l) as -> by congruence.
  unfold byte_at. destruct (l !! Z.to_nat j) as [x |] eqn:Hx; simpl.
  - by eapply Forall_lookup_1.
  - unfold is_byte. lia.
Qed.

Lemma initialized_index_byte bs l index :
  initialized bs -> bits bs = Some l -> 0 <= index < bit_len bs ->
  index / 8 < Z.of_nat (length l).
Proof.
  intros (_ & l' & Hl' & Hlen & _) Hl Hindex.
  assert (l' = l) as -> by congruence. rewrite Hlen.
  by apply index_byte_in_range.
Qed.

Lemma initialized_insert bs l j y :
  initialized bs -> bits bs = Some l -> is_byte y ->
  initialized (mkBitSet (Some (<[j := y]> l)) (bit_len bs)).
Proof.
  intros (Hn & l' & Hl' & Hlen & Hall) Hl Hy.
  assert (l' = l) as -> by congruence.
  split; [done |]. exists (<[j := y]> l). simpl.
  rewrite length_insert. split_and!; [done | done |].
  by apply Forall_insert.
Qed.

(** [set], [clear] and [flip] keep a BitSet initialized. *)
Lemma single_bit_keeps_initialized debug bs index :
  initialized bs -> 0 <= index < bit_len bs ->
  exists b1 b0 bf,
    BitSet_set debug (Some bs) index = Ok b1 /\ initialized b1 /\
    BitSet_clear debug (Some bs) index = Ok b0 /\ initialized b0 /\
    BitSet_flip debug (Some bs) index = Ok bf /\ initialized bf.
Proof.
  intros Hinit Hindex. pose proof Hinit as (_ & l & Hbits & _ & _).
  pose proof (initialized_index_byte _ _ _ Hinit Hbits Hindex) as Hbyte.
  eexists _, _, _. split_and!.
  - by apply (BitSet_set_ok debug bs l).
  - apply initialized_insert; [done | done | apply to_u8_is_byte].
  - by apply (BitSet_clear_ok debug bs l).
  - apply initialized_insert; [done | done | apply to_u8_is_byte].
  - by apply (BitSet_flip_ok debug bs l).
  - apply initialized_insert; [done | done | apply to_u8_is_byte].
Qed.

(** Replacing byte [index / 8] by one that differs from it at most in bit
    [index mod 8] changes bit [index] of the buffer and no other. *)
Lemma bit_of_update (l : list Z) index y v p :
  (forall j, 0 <= j ->
     Z.testbit y j
     = if index mod 8 =? j then v else Z.testbit (byte_at l (index / 8)) j) ->
  0 <= index -> 0 <= p -> index / 8 < Z.of_nat (length l) ->
  bit_of (<[Z.to_nat (index / 8) := y]> l) p
  = if p =? index then v else bit_of l p.
Proof.
  intros Hy Hindex Hp Hlen.
  rewrite bit_of_insert, (index_split p index) by done.
  destruct (Z.eqb_spec (p / 8) (index / 8)) as [Heq | Hne]; simpl; [| done].
  rewrite Hy by (apply Z.mod_pos_bound; lia).
  unfold bit_of. by rewrite Heq.
Qed.

(** C5: on an initialized BitSet and for [index < bit_len], [get] after
    [set] returns 1, [get] after [clear] returns 0, and [flip] applied twice
    gives the BitSet back, so [get] returns what it returned before; [get]
    reads, and [set], [clear] and [flip] change, exactly bit [index mod 8]
    (bit 0 being the least significant) of byte [index / 8]. *)
Theorem single_bit_operations (debug : bool) (bs : BitSet) (l : list Z)
    (index : Z) :
  initialized bs -> bits bs = Some l -> 0 <= index < bit_len bs ->
  exists b1 b0 bf l1 l0 lf,
    BitSet_set debug (Some bs) index = Ok b1 /\ bits b1 = Some l1 /\
    BitSet_clear debug (Some bs) index = Ok b0 /\ bits b0 = Some l0 /\
    BitSet_flip debug (Some bs) index = Ok bf /\ bits bf = Some lf /\
    BitSet_get debug (Some b1) index = Ok 1 /\
    BitSet_get debug (Some b0) index = Ok 0 /\
    (exists bff,
       BitSet_flip debug (Some bf) index = Ok bff /\ bff = bs /\
       BitSet_get debug (Some bff) index = BitSet_get debug (Some bs) index) /\
    BitSet_get debug (Some bs) index = Ok (Z.b2z (bit_of l index)) /\
    (length l1 = length l /\ length l0 = length l /\ length lf = length l) /\
    forall p, 0 <= p ->
      bit_of l1 p = (if p =? index then true else bit_of l p) /\
      bit_of l0 p = (if p =? index then false else bit_of l p) /\
      bit_of lf p = (if p =? index then negb (bit_of l index) else bit_of l p).
Proof.
  intros Hinit Hbits Hindex.
  pose proof (initialized_index_byte _ _ _ Hinit Hbits Hindex) as Hbyte.
  pose proof (initialized_byte_at _ _ (index / 8) Hinit Hbits) as Hx.
  assert (Hk : 0 <= index mod 8 < 8) by (apply Z.mod_pos_bound; lia).
  pose proof (byte_index_nonneg index (proj1 Hindex)) as Hnonneg.
  pose proof (byte_present l (index / 8) (conj Hnonneg Hbyte)) as Hpres.
  set (x := byte_at l (index / 8)) in *.
  set (n := Z.to_nat (index / 8)).
  set (l1 := <[n := to_u8 (Z.lor x (Z.shiftl 1 (index mod 8)))]> l).
  set (l0 := <[n := to_u8 (Z.land x (Z.lnot (Z.shiftl 1 (index mod 8))))]> l).
  set (lf := <[n := to_u8 (Z.lxor x (Z.shiftl 1 (index mod 8)))]> l).
  assert (Hbits1 : forall p, 0 <= p ->
            bit_of l1 p = if p =? index then true else bit_of l p).
  { intros p Hp. apply bit_of_update; [| lia | done | done].
    intros j Hj. by apply testbit_set_byte. }
  assert (Hbits0 : forall p, 0 <= p ->
            bit_of l0 p = if p =? index then false else bit_of l p).
  { intros p Hp. apply bit_of_update; [| lia | done | done].
    intros j Hj. by apply testbit_clear_byte. }
  assert (Hbitsf : forall p, 0 <= p ->
            bit_of lf p = if p =? index then negb (bit_of l index)
                          else bit_of l p).
  { intros p Hp. apply bit_of_update; [| lia | done | done].
    intros j Hj. rewrite testbit_flip_byte by done.
    destruct (Z.eqb_spec (index mod 8) j) as [<- |]; reflexivity. }
  exists (mkBitSet (Some l1) (bit_len bs)), (mkBitSet (Some l0) (bit_len bs)),
    (mkBitSet (Some lf) (bit_len bs)), l1, l0, lf.
  assert (Hlen : forall y,
            Z.of_nat (length (<[n := y]> l)) = Z.of_nat (length l))
    by (intros y; by rewrite length_insert).
  assert (Hget : BitSet_get debug (Some bs) index = Ok (Z.b2z (bit_of l index)))
    by (by apply BitSet_get_ok).
  split_and!.
  - by apply BitSet_set_ok.
  - done.
  - by apply BitSet_clear_ok.
  - done.
  - by apply BitSet_flip_ok.
  - done.
  - rewrite (BitSet_get_ok debug _ l1) by (done || by unfold l1; rewrite Hlen).
    rewrite Hbits1 by lia. by rewrite Z.eqb_refl.
  - rewrite (BitSet_get_ok debug _ l0) by (done || by unfold l0; rewrite Hlen).
    rewrite Hbits0 by lia. by rewrite Z.eqb_refl.
  - exists bs. split_and!; [| done | done].
    rewrite (BitSet_flip_ok debug _ lf) by (done || by unfold lf; rewrite Hlen).
    simpl. destruct bs as [p n']; simpl in *. subst p. do 3 f_equal.
    unfold lf. rewrite list_insert_insert_eq.
    replace (byte_at _ (index / 8))
      with (to_u8 (Z.lxor x (Z.shiftl 1 (index mod 8)))).
    + rewrite flip_byte_twice by done. apply list_insert_id.
      exact Hpres.
    + symmetry. apply byte_at_Some. apply list_lookup_insert_eq. lia.
  - done.
  - apply length_insert.
  - apply length_insert.
  - apply length_insert.
  - intros p Hp. auto.
Qed.

(** The theorem at a 12-bit BitSet holding [0x05 0x0A], bit 9. *)
Lemma single_bit_operations_witness :
  exists b1 b0 bf l1 l0 lf,
    let bs := mkBitSet (Some [5; 10]) 12 in
    let l := [5; 10] in
    BitSet_set true (Some bs) 9 = Ok b1 /\ bits b1 = Some l1 /\
    BitSet_clear true (Some bs) 9 = Ok b0 /\ bits b0 = Some l0 /\
    BitSet_flip true (Some bs) 9 = Ok bf /\ bits bf = Some lf /\
    BitSet_get true (Some b1) 9 = Ok 1 /\
    BitSet_get true (Some b0) 9 = Ok 0 /\
    (exists bff,
       BitSet_flip true (Some bf) 9 = Ok bff /\ bff = bs /\
       BitSet_get true (Some bff) 9 = BitSet_get true (Some bs) 9) /\
    BitSet_get true (Some bs) 9 = Ok (Z.b2z (bit_of l 9)) /\
    (length l1 = length l /\ length l0 = length l /\ length lf = length l) /\
    forall p, 0 <= p ->
      bit_of l1 p = (if p =? 9 then true else bit_of l p) /\
      bit_of l0 p = (if p =? 9 then false else bit_of l p) /\
      bit_of lf p = (if p =? 9 then negb (bit_of l 9) else bit_of l p).
Proof.
  apply (single_bit_operations true (mkBitSet (Some [5; 10]) 12) [5; 10] 9).
  - concrete_initialized [5; 10].
  - reflexivity.
  - simpl. lia.
Defined.

(** ** Reading a uniformly filled buffer *)

Lemma testbit_255 j : 0 <= j < 8 -> Z.testbit 255 j = true.
Proof. intros Hj. change 255 with (Z.ones 8). by apply Z.ones_spec_low. Qed.

Lemma bit_of_replicate k v index :
  0 <= index -> index / 8 < Z.of_nat k ->
  bit_of (replicate k v) index = Z.testbit v (index mod 8).
Proof.
  intros Hindex Hk. unfold bit_of, byte_at.
  pose proof (byte_index_nonneg index Hindex).
  rewrite lookup_replicate_2 by lia. done.
Qed.

Lemma initialized_byte_len debug bs :
  initialized bs ->
  BitSet_get_byte_len debug (Some bs) = Ok ((bit_len bs + 7) / 8).
Proof.
  intros [Hn _]. unfold BitSet_get_byte_len. simpl.
  rewrite BITSET_ASSERT_true. simpl. by rewrite byte_len_exact.
Qed.

Lemma initialized_replicate n v :
  0 <= n <= SIZE_MAX - 7 -> is_byte v ->
  initialized (mkBitSet (Some (replicate (Z.to_nat ((n + 7) / 8)) v)) n).
Proof.
  intros Hn Hv. split; [done |]. eexists. split_and!; [done | |].
  - rewrite length_replicate. simpl.
    apply Z2Nat.id, Z.div_pos; lia.
  - by apply Forall_replicate.
Qed.

Lemma BitSet_get_replicate debug n v index :
  0 <= n <= SIZE_MAX - 7 -> 0 <= index < n ->
  BitSet_get debug
    (Some (mkBitSet (Some (replicate (Z.to_nat ((n + 7) / 8)) v)) n)) index
  = Ok (Z.b2z (Z.testbit v (index mod 8))).
Proof.
  intros Hn Hindex.
  pose proof (index_byte_in_range n index Hindex) as Hbyte.
  erewrite BitSet_get_ok; [| reflexivity | done |].
  - rewrite bit_of_replicate; [done | lia | lia].
  - rewrite length_replicate. lia.
Qed.

(** ** Construction *)

Lemma BitSet_init_ok debug alloc dest n :
  0 <= n <= SIZE_MAX - 7 -> alloc ((n + 7) / 8) = true ->
  BitSet_init debug alloc (Some dest) n
  = Ok (mkBitSet (Some (replicate (Z.to_nat ((n + 7) / 8)) 0)) n).
Proof.
  intros Hn Halloc. unfold BitSet_init, BitSet_get_byte_len. simpl.
  rewrite !BITSET_ASSERT_true. simpl.
  rewrite byte_len_exact by done.
  unfold calloc. rewrite Z.mul_1_r, Halloc.
  assert (Hle : (n + 7) / 8 <= SIZE_MAX).
  { apply Z.lt_le_incl, Z.div_lt_upper_bound; lia. }
  destruct (Z.leb_spec ((n + 7) / 8) SIZE_MAX); [| lia]. simpl.
  by rewrite BITSET_ASSERT_true.
Qed.

(** As long as [bit_len + 7] does not wrap, that is for
    [0 <= n <= SIZE_MAX - 7], and for a granted allocation, [BitSet_init
    (n)] returns a BitSet whose byte length is [ceil(n / 8)] and whose bits
    below [n] all read 0. *)
Theorem init_zero_filled (debug : bool) (alloc : Z -> bool) (dest : BitSet)
    (n : Z) :
  0 <= n <= SIZE_MAX - 7 -> alloc ((n + 7) / 8) = true ->
  init_postcondition debug alloc dest n.
Proof.
  intros Hn Halloc. eexists _, _. split_and!.
  - by apply BitSet_init_ok.
  - apply initialized_byte_len, initialized_replicate; [done |].
    unfold is_byte. lia.
  - apply ceil8_div.
  - intros index Hindex. simpl.
    by rewrite BitSet_get_replicate, Z.bits_0.
Qed.

Lemma init_zero_filled_witness :
  init_postcondition true grant_all blank 100
  /\ init_postcondition false grant_all blank 0.
Proof.
  split.
  - apply (init_zero_filled true grant_all blank 100); [| reflexivity].
    vm_compute. split; discriminate.
  - apply (init_zero_filled false grant_all blank 0); [| reflexivity].
    vm_compute. split; discriminate.
Defined.

(** The postcondition fails at [n = SIZE_MAX]: [bit_len + 7] wraps to 6,
    the byte length is 0 instead of [2^61], and the storage is empty. *)
Lemma init_size_max_counterexample :
  ~ init_postcondition true grant_all blank SIZE_MAX.
Proof.
  intros (bs & k & Hinit & Hlen & Hceil & _).
  vm_compute in Hinit. injection Hinit as <-.
  vm_compute in Hlen. injection Hlen as <-.
  destruct Hceil as [_ Hle]. vm_compute in Hle. by apply Hle.
Qed.

(** C3: [BitSet_init (SIZE_MAX)] with a granted allocation.  The byte
    length should be [ceil(SIZE_MAX / 8) = 2^61] and bit 0 should read 0;
    the code computes [(SIZE_MAX + 7) / 8] in [size_t], where the sum has
    wrapped to 6, so the byte length is 0, the storage is a block of no
    bytes, and [get (0)], which passes the bounds assertion, reads outside
    it.  [SIZE_MAX - 6] is the least bit count that wraps; at
    [SIZE_MAX - 7] the byte length is still the ceiling. *)
Example init_size_max_run :
  BitSet_init true grant_all (Some blank) SIZE_MAX
  = Ok (mkBitSet (Some []) SIZE_MAX)
  /\ BitSet_get_byte_len true (Some (mkBitSet (Some []) SIZE_MAX)) = Ok 0
  /\ is_ceil8 SIZE_MAX (2 ^ 61)
  /\ BitSet_get true (Some (mkBitSet (Some []) SIZE_MAX)) 0 = Undefined
  /\ BitSet_init true grant_all (Some blank) (SIZE_MAX - 6)
     = Ok (mkBitSet (Some []) (SIZE_MAX - 6))
  /\ BitSet_get_byte_len true (Some (mkBitSet None (SIZE_MAX - 7)))
     = Ok (2 ^ 61 - 1)
  /\ is_ceil8 (SIZE_MAX - 7) (2 ^ 61 - 1).
Proof. by vm_compute. Qed.

Lemma BitSet_init_initialized debug alloc dest n bs :
  0 <= n <= SIZE_MAX - 7 ->
  BitSet_init debug alloc (Some dest) n = Ok bs -> bits bs <> None ->
  initialized bs.
Proof.
  intros Hn Hinit Hbits.
  destruct (alloc ((n + 7) / 8)) eqn:Halloc.
  - rewrite BitSet_init_ok in Hinit by done. injection Hinit as <-.
    apply initialized_replicate; [done |]. unfold is_byte. lia.
  - exfalso. apply Hbits. revert Hinit.
    unfold BitSet_init, BitSet_get_byte_len. simpl.
    rewrite !BITSET_ASSERT_true. simpl. rewrite byte_len_exact by done.
    unfold calloc. rewrite Z.mul_1_r, Halloc, andb_false_r. simpl.
    destruct debug; simpl; [done |]. by intros [= <-].
Qed.

(** ** Bulk fills *)

Lemma BitSet_set_all_ok debug bs :
  initialized bs ->
  BitSet_set_all debug (Some bs)
  = Ok (mkBitSet (Some (replicate (Z.to_nat ((bit_len bs + 7) / 8)) 255))
          (bit_len bs)).
Proof.
  intros Hinit. unfold BitSet_set_all.
  rewrite initialized_byte_len by done. simpl.
  destruct Hinit as (_ & l & -> & Hlen & _).
  rewrite BITSET_ASSERT_true. simpl. by rewrite fill_all.
Qed.

Lemma BitSet_clear_all_ok debug bs :
  initialized bs ->
  BitSet_clear_all debug (Some bs)
  = Ok (mkBitSet (Some (replicate (Z.to_nat ((bit_len bs + 7) / 8)) 0))
          (bit_len bs)).
Proof.
  intros Hinit. unfold BitSet_clear_all.
  rewrite initialized_byte_len by done. simpl.
  destruct Hinit as (_ & l & -> & Hlen & _).
  rewrite BITSET_ASSERT_true. simpl. by rewrite fill_all.
Qed.

(** C7: on an initialized BitSet of [k] storage bytes, [set_all] leaves
    [k] bytes [0xFF] and [clear_all] leaves [k] bytes [0x00], padding bits
    of the last byte included; afterwards [get] returns 1, respectively 0,
    at every index below [bit_len]. *)
Theorem set_all_clear_all (debug : bool) (bs : BitSet) :
  initialized bs ->
  exists k ones zeros,
    BitSet_get_byte_len debug (Some bs) = Ok k /\
    BitSet_set_all debug (Some bs) = Ok ones /\
    BitSet_clear_all debug (Some bs) = Ok zeros /\
    bits ones = Some (replicate (Z.to_nat k) 255) /\
    bits zeros = Some (replicate (Z.to_nat k) 0) /\
    bit_len ones = bit_len bs /\ bit_len zeros = bit_len bs /\
    forall index, 0 <= index < bit_len bs ->
      BitSet_get debug (Some ones) index = Ok 1 /\
      BitSet_get debug (Some zeros) index = Ok 0.
Proof.
  intros Hinit. eexists _, _, _. split_and!.
  - by apply initialized_byte_len.
  - by apply BitSet_set_all_ok.
  - by apply BitSet_clear_all_ok.
  - done.
  - done.
  - done.
  - done.
  - destruct Hinit as [Hn _]. intros index Hindex.
    rewrite !BitSet_get_replicate by done.
    rewrite testbit_255 by (apply Z.mod_pos_bound; lia).
    by rewrite Z.bits_0.
Qed.

(** The theorem at a 12-bit BitSet holding [0x05 0x0A]. *)
Lemma set_all_clear_all_witness :
  exists k ones zeros,
    let bs := mkBitSet (Some [5; 10]) 12 in
    BitSet_get_byte_len false (Some bs) = Ok k /\
    BitSet_set_all false (Some bs) = Ok ones /\
    BitSet_clear_all false (Some bs) = Ok zeros /\
    bits ones = Some (replicate (Z.to_nat k) 255) /\
    bits zeros = Some (replicate (Z.to_nat k) 0) /\
    bit_len ones = bit_len bs /\ bit_len zeros = bit_len bs /\
    forall index, 0 <= index < bit_len bs ->
      BitSet_get false (Some ones) index = Ok 1 /\
      BitSet_get false (Some zeros) index = Ok 0.
Proof.
  apply (set_all_clear_all false (mkBitSet (Some [5; 10]) 12)).
  concrete_initialized [5; 10].
Defined.

(** ** Bounds checks of the debug build *)

(** C9: with assertions compiled in, [set], [clear], [flip] and [get] on an
    initialized BitSet stop with their out-of-bounds message exactly when
    [index >= bit_len], and return otherwise; [index = bit_len] is out of
    bounds. *)
Theorem strict_index_check (bs : BitSet) (index : Z) :
  initialized bs -> 0 <= index ->
  (bit_len bs <= index ->
     BitSet_set true (Some bs) index
     = Trap "BitSet_set: Index out of bounds"%string /\
     BitSet_clear true (Some bs) index
     = Trap "BitSet_clear: Index out of bounds"%string /\
     BitSet_flip true (Some bs) index
     = Trap "BitSet_flip: Index out of bounds"%string /\
     BitSet_get true (Some bs) index
     = Trap "BitSet_get: Index out of bounds"%string) /\
  (index < bit_len bs ->
     exists b1 b0 bf v,
       BitSet_set true (Some bs) index = Ok b1 /\
       BitSet_clear true (Some bs) index = Ok b0 /\
       BitSet_flip true (Some bs) index = Ok bf /\
       BitSet_get true (Some bs) index = Ok v) /\
  BitSet_set true (Some bs) (bit_len bs)
  = Trap "BitSet_set: Index out of bounds"%string /\
  BitSet_clear true (Some bs) (bit_len bs)
  = Trap "BitSet_clear: Index out of bounds"%string /\
  BitSet_flip true (Some bs) (bit_len bs)
  = Trap "BitSet_flip: Index out of bounds"%string /\
  BitSet_get true (Some bs) (bit_len bs)
  = Trap "BitSet_get: Index out of bounds"%string.
Proof.
  intros Hinit Hindex.
  assert (Hout : forall i, bit_len bs <= i ->
     BitSet_set true (Some bs) i
     = Trap "BitSet_set: Index out of bounds"%string /\
     BitSet_clear true (Some bs) i
     = Trap "BitSet_clear: Index out of bounds"%string /\
     BitSet_flip true (Some bs) i
     = Trap "BitSet_flip: Index out of bounds"%string /\
     BitSet_get true (Some bs) i
     = Trap "BitSet_get: Index out of bounds"%string).
  { intros i Hi.
    unfold BitSet_set, BitSet_clear, BitSet_flip, BitSet_get. simpl.
    destruct (Z.ltb_spec i (bit_len bs)); [lia | done]. }
  split; [by apply Hout |]. split; [| apply Hout; lia].
  intros Hlt.
  destruct Hinit as (Hn & l & Hbits & Hlen & Hall).
  assert (Hbyte : index / 8 < Z.of_nat (length l)).
  { rewrite Hlen. apply index_byte_in_range. lia. }
  eexists _, _, _, _. split_and!.
  - by apply (BitSet_set_ok true bs l).
  - by apply (BitSet_clear_ok true bs l).
  - by apply (BitSet_flip_ok true bs l).
  - by apply (BitSet_get_ok true bs l).
Qed.

Lemma strict_index_check_witness :
  BitSet_get true (Some (mkBitSet (Some [5; 10]) 12)) 12
  = Trap "BitSet_get: Index out of bounds"%string.
Proof.
  apply (strict_index_check (mkBitSet (Some [5; 10]) 12) 12); [| lia].
  concrete_initialized [5; 10].
Defined.

(** ** Allocation failure *)

(** C4 as stated fails for [init (8)] and for copying a one-byte BitSet:
    the debug build stops in the assertion, the fast build of
    [copy_construct] writes through the [NULL] it got. *)
Lemma allocation_failure_counterexample :
  ~ allocation_failure_recoverable 8 (mkBitSet (Some [1]) 8).
Proof.
  intros H. destruct (H true (fun _ => 0)) as [[bs Hbs] _].
  vm_compute in Hbs. discriminate.
Qed.

Example allocation_failure_run :
  let src := Some (mkBitSet (Some [1]) 8) in
  BitSet_init true refuse_all (Some blank) 8
  = Trap "BitSet_init: Memory allocation failed"%string
  /\ BitSet_init false refuse_all (Some blank) 8 = Ok (mkBitSet None 8)
  /\ BitSet_copy_construct true refuse_all (fun _ => 0) (Some blank) src
     = Trap "BitSet_copy_construct: Memory allocation failed"%string
  /\ BitSet_copy_construct false refuse_all (fun _ => 0) (Some blank) src
     = Undefined.
Proof. by vm_compute. Qed.

Lemma byte_len_is_size z : 0 <= wrap z / 8 <= SIZE_MAX.
Proof.
  unfold wrap, SIZE_MAX, SIZE_BITS.
  pose proof (Z.mod_pos_bound z (2 ^ 64) ltac:(lia)).
  split; [apply Z.div_pos; lia |].
  apply Z.lt_le_incl, Z.div_lt_upper_bound; lia.
Qed.

(** C4, amended: when the allocator refuses the storage, the debug build
    of [init] and of [copy_construct] stops in the assertion with its
    "Memory allocation failed" message; the fast build of [init] returns
    with [NULL] storage and [bit_len] set, and the fast build of
    [copy_construct] returns likewise for a source of zero bytes and is
    undefined (it writes through [NULL]) for any other. *)
Theorem allocation_failure_behaviour (alloc : Z -> bool) (garbage : nat -> Z)
    (dest src : BitSet) (n : Z) :
  alloc (wrap (n + 7) / 8) = false ->
  alloc (wrap (bit_len src + 7) / 8) = false ->
  BitSet_init true alloc (Some dest) n
  = Trap "BitSet_init: Memory allocation failed"%string /\
  BitSet_init false alloc (Some dest) n = Ok (mkBitSet None n) /\
  BitSet_copy_construct true alloc garbage (Some dest) (Some src)
  = Trap "BitSet_copy_construct: Memory allocation failed"%string /\
  BitSet_copy_construct false alloc garbage (Some dest) (Some src)
  = if wrap (bit_len src + 7) / 8 =? 0 then Ok (mkBitSet None (bit_len src))
    else Undefined.
Proof.
  intros Hinit Hcopy.
  assert (Hcalloc : calloc alloc (wrap (n + 7) / 8) 1 = None).
  { unfold calloc. by rewrite Z.mul_1_r, Hinit, andb_false_r. }
  assert (Hmalloc : malloc alloc garbage (wrap (wrap (bit_len src + 7) / 8 * 1))
                    = None).
  { unfold malloc.
    by rewrite Z.mul_1_r, (wrap_small _ (byte_len_is_size _)), Hcopy. }
  split_and!.
  - unfold BitSet_init, BitSet_get_byte_len. simpl. by rewrite Hcalloc.
  - unfold BitSet_init, BitSet_get_byte_len. simpl. by rewrite Hcalloc.
  - unfold BitSet_copy_construct, BitSet_get_byte_len. simpl.
    by rewrite Hmalloc.
  - unfold BitSet_copy_construct, BitSet_get_byte_len. simpl.
    rewrite Hmalloc. simpl. unfold for_upto.
    pose proof (byte_len_is_size (bit_len src + 7)) as [Hlo _].
    destruct (Z.eqb_spec (wrap (bit_len src + 7) / 8) 0) as [-> | Hne];
      [done |].
    destruct (Z.to_nat (wrap (bit_len src + 7) / 8)) as [| count] eqn:Hcount;
      [lia |].
    simpl. unfold load. destruct (bits src) as [l |]; [| done].
    change (0 <? 0) with false. cbv iota.
    change (Z.to_nat 0) with 0%nat. by destruct (l !! 0%nat).
Qed.

Lemma allocation_failure_behaviour_witness :
  BitSet_init true refuse_all (Some blank) 8
  = Trap "BitSet_init: Memory allocation failed"%string /\
  BitSet_init false refuse_all (Some blank) 8 = Ok (mkBitSet None 8) /\
  BitSet_copy_construct true refuse_all (fun _ => 0) (Some blank)
    (Some (mkBitSet (Some [1]) 8))
  = Trap "BitSet_copy_construct: Memory allocation failed"%string /\
  BitSet_copy_construct false refuse_all (fun _ => 0) (Some blank)
    (Some (mkBitSet (Some [1]) 8))
  = if wrap (8 + 7) / 8 =? 0 then Ok (mkBitSet None 8) else Undefined.
Proof.
  apply (allocation_failure_behaviour refuse_all (fun _ => 0) blank
           (mkBitSet (Some [1]) 8) 8); reflexivity.
Defined.

(** ** Boolean algebra *)

Lemma lor_is_byte x y :
  is_byte x -> is_byte y -> to_u8 (Z.lor x y) = Z.lor x y.
Proof.
  intros Hx Hy. apply Z.bits_inj'. intros j Hj.
  rewrite testbit_to_u8, Z.lor_spec.
  destruct (Z.ltb_spec j 8); [done |]. by rewrite !byte_testbit_high.
Qed.

Lemma land_is_byte x y :
  is_byte x -> is_byte y -> to_u8 (Z.land x y) = Z.land x y.
Proof.
  intros Hx Hy. apply Z.bits_inj'. intros j Hj.
  rewrite testbit_to_u8, Z.land_spec.
  destruct (Z.ltb_spec j 8); [done |]. by rewrite !byte_testbit_high.
Qed.

Lemma lxor_is_byte x y :
  is_byte x -> is_byte y -> to_u8 (Z.lxor x y) = Z.lxor x y.
Proof.
  intros Hx Hy. apply Z.bits_inj'. intros j Hj.
  rewrite testbit_to_u8, Z.lxor_spec.
  destruct (Z.ltb_spec j 8); [done |]. by rewrite !byte_testbit_high.
Qed.

Section CombineBytes.

Variable op : Z -> Z -> Z.
Variable ls : list Z.

(** The loop from byte [i] on, [count] bytes to go. *)
Lemma combine_range : forall (count : nat) (i : Z) (ld : list Z),
  0 <= i ->
  i + Z.of_nat count <= Z.of_nat (length ld) ->
  i + Z.of_nat count <= Z.of_nat (length ls) ->
  exists l',
    for_range count i
      (fun i p => do x <- load p i; do y <- load (Some ls) i;
                  store p i (to_u8 (op x y))) (Some ld)
    = Ok (Some l') /\
    length l' = length ld /\
    forall (j : nat) x, ld !! j = Some x ->
      l' !! j
      = Some (if (i <=? Z.of_nat j) && (Z.of_nat j <? i + Z.of_nat count)
              then to_u8 (op x (byte_at ls (Z.of_nat j))) else x).
Proof.
  induction count as [| count IH]; intros i ld Hi Hd Hs.
  - exists ld. split_and!; [done | done |]. intros j x Hx.
    destruct (Z.leb_spec i (Z.of_nat j)),
      (Z.ltb_spec (Z.of_nat j) (i + Z.of_nat 0));
      simpl; (done || lia).
  - destruct (lookup_in_range ld i ltac:(lia)) as [x Hx].
    destruct (lookup_in_range ls i ltac:(lia)) as [y Hy].
    rewrite for_range_succ.
    rewrite (load_Some _ _ _ Hi Hx). cbn [bind].
    rewrite (load_Some _ _ _ Hi Hy). cbn [bind].
    rewrite store_Some by lia. cbn [bind].
    destruct (IH (i + 1) (<[Z.to_nat i := to_u8 (op x y)]> ld))
      as (l' & Hrun & Hlen & Hl'); [lia | rewrite length_insert; lia | lia |].
    exists l'. split_and!; [done | by rewrite Hlen, length_insert |].
    intros j z Hz.
    destruct (decide (j = Z.to_nat i)) as [-> | Hne].
    + assert (z = x) as -> by congruence.
      rewrite (Hl' _ (to_u8 (op x y)))
        by (apply list_lookup_insert_eq; by eapply lookup_lt_Some).
      rewrite Z2Nat.id by done. rewrite (byte_at_Some _ _ _ Hy).
      destruct (Z.leb_spec (i + 1) i), (Z.leb_spec i i),
        (Z.ltb_spec i (i + Z.of_nat (S count))); simpl; (done || lia).
    + rewrite (Hl' _ z) by (by rewrite list_lookup_insert_ne).
      f_equal.
      destruct (Z.leb_spec (i + 1) (Z.of_nat j)), (Z.leb_spec i (Z.of_nat j)),
        (Z.ltb_spec (Z.of_nat j) (i + 1 + Z.of_nat count)),
        (Z.ltb_spec (Z.of_nat j) (i + Z.of_nat (S count)));
        simpl; (done || lia).
Qed.

Lemma combine_bytes_ok (count : Z) (ld : list Z) :
  0 <= count <= Z.of_nat (length ld) -> count <= Z.of_nat (length ls) ->
  (forall x y, is_byte x -> is_byte y -> to_u8 (op x y) = op x y) ->
  Forall is_byte ld -> Forall is_byte ls ->
  exists l',
    combine_bytes op count (Some ld) (Some ls) = Ok (Some l') /\
    combined op count ld ls l'.
Proof.
  intros Hd Hs Hop Hbd Hbs. unfold combine_bytes, for_upto.
  destruct (combine_range (Z.to_nat count) 0 ld)
    as (l' & Hrun & Hlen & Hl'); [lia | lia | lia |].
  exists l'. split; [done |]. split; [done |].
  intros j x Hx. rewrite (Hl' _ _ Hx). f_equal.
  destruct (Z.leb_spec 0 (Z.of_nat j)); [| lia]. simpl.
  rewrite Z2Nat.id by lia.
  rewrite Z.add_0_l.
  destruct (Z.ltb_spec (Z.of_nat j) count); [| done].
  apply Hop; [exact (Forall_lookup_1 _ _ _ _ Hbd Hx) |].
  unfold byte_at. rewrite Nat2Z.id.
  destruct (ls !! j) as [y |] eqn:Hy; simpl.
  - exact (Forall_lookup_1 _ _ _ _ Hbs Hy).
  - unfold is_byte. lia.
Qed.

End CombineBytes.

Lemma shorter_byte_len debug dest src :
  initialized dest -> initialized src ->
  let count := (Z.min (bit_len dest) (bit_len src) + 7) / 8 in
  BitSet_get_byte_len debug
    (if bit_len dest <? bit_len src then Some dest else Some src) = Ok count /\
  0 <= count <= (bit_len dest + 7) / 8 /\ count <= (bit_len src + 7) / 8.
Proof.
  intros Hd Hs count.
  assert (Hmono : forall a b, 0 <= a <= b -> 0 <= (a + 7) / 8 <= (b + 7) / 8).
  { intros a b Hab. split; [apply Z.div_pos; lia |].
    apply Z.div_le_mono; lia. }
  pose proof Hd as [Hnd _]. pose proof Hs as [Hns _]. subst count.
  destruct (Z.ltb_spec (bit_len dest) (bit_len src)).
  - rewrite Z.min_l by lia. rewrite initialized_byte_len by done.
    split; [done |]. pose proof (Hmono (bit_len dest) (bit_len src)). 
    pose proof (Hmono (bit_len dest) (bit_len dest)). lia.
  - rewrite Z.min_r by lia. rewrite initialized_byte_len by done.
    split; [done |]. pose proof (Hmono (bit_len src) (bit_len dest)).
    pose proof (Hmono (bit_len src) (bit_len src)). lia.
Qed.

(** C1: for initialized [dest] and [src], [or], [and] and [xor] take the
    byte length of the operand chosen by [dest->bit_len < src->bit_len],
    that is [ceil(min(bit lengths) / 8)], combine that many leading bytes
    of [dest] with the bytes of [src] at the same places, and leave every
    later byte of [dest], and its [bit_len], as they were. *)
Theorem boolean_ops_truncate (debug : bool) (dest src : BitSet)
    (ld ls : list Z) :
  initialized dest -> initialized src ->
  bits dest = Some ld -> bits src = Some ls ->
  exists count l_or l_and l_xor,
    BitSet_get_byte_len debug
      (if bit_len dest <? bit_len src then Some dest else Some src)
    = Ok count /\
    count = (Z.min (bit_len dest) (bit_len src) + 7) / 8 /\
    0 <= count <= Z.of_nat (length ld) /\ count <= Z.of_nat (length ls) /\
    BitSet_or debug (Some dest) (Some src)
    = Ok (mkBitSet (Some l_or) (bit_len dest)) /\
    combined Z.lor count ld ls l_or /\
    BitSet_and debug (Some dest) (Some src)
    = Ok (mkBitSet (Some l_and) (bit_len dest)) /\
    combined Z.land count ld ls l_and /\
    BitSet_xor debug (Some dest) (Some src)
    = Ok (mkBitSet (Some l_xor) (bit_len dest)) /\
    combined Z.lxor count ld ls l_xor.
Proof.
  intros Hd Hs Hld Hls.
  destruct (shorter_byte_len debug dest src Hd Hs) as (Hcount & Hcd & Hcs).
  set (count := (Z.min (bit_len dest) (bit_len src) + 7) / 8) in *.
  destruct Hd as (_ & ld' & Hld' & Hlend & Hbd).
  destruct Hs as (_ & ls' & Hls' & Hlens & Hbs).
  assert (ld' = ld) as -> by congruence.
  assert (ls' = ls) as -> by congruence.
  destruct (combine_bytes_ok Z.lor ls count ld)
    as (l_or & Hor & Hcor); [lia | lia | apply lor_is_byte | done | done |].
  destruct (combine_bytes_ok Z.land ls count ld)
    as (l_and & Hand & Hcand); [lia | lia | apply land_is_byte | done | done |].
  destruct (combine_bytes_ok Z.lxor ls count ld)
    as (l_xor & Hxor & Hcxor); [lia | lia | apply lxor_is_byte | done | done |].
  exists count, l_or, l_and, l_xor.
  split_and!; try (done || lia).
  - unfold BitSet_or, shorter. simpl. rewrite BITSET_ASSERT_true. simpl.
    rewrite Hcount. simpl. by rewrite Hld, Hls, Hor.
  - unfold BitSet_and, shorter. simpl. rewrite BITSET_ASSERT_true. simpl.
    rewrite Hcount. simpl. by rewrite Hld, Hls, Hand.
  - unfold BitSet_xor, shorter. simpl. rewrite BITSET_ASSERT_true. simpl.
    rewrite Hcount. simpl. by rewrite Hld, Hls, Hxor.
Qed.

(** The theorem at the 16-bit, 8-bit pair of the specification. *)
Lemma boolean_ops_truncate_witness :
  exists count l_or l_and l_xor,
    let dest := mkBitSet (Some [12; 240]) 16 in
    let src := mkBitSet (Some [10]) 8 in
    BitSet_get_byte_len true
      (if bit_len dest <? bit_len src then Some dest else Some src)
    = Ok count /\
    count = (Z.min (bit_len dest) (bit_len src) + 7) / 8 /\
    0 <= count <= Z.of_nat (length [12; 240]) /\
    count <= Z.of_nat (length [10]) /\
    BitSet_or true (Some dest) (Some src)
    = Ok (mkBitSet (Some l_or) (bit_len dest)) /\
    combined Z.lor count [12; 240] [10] l_or /\
    BitSet_and true (Some dest) (Some src)
    = Ok (mkBitSet (Some l_and) (bit_len dest)) /\
    combined Z.land count [12; 240] [10] l_and /\
    BitSet_xor true (Some dest) (Some src)
    = Ok (mkBitSet (Some l_xor) (bit_len dest)) /\
    combined Z.lxor count [12; 240] [10] l_xor.
Proof.
  apply (boolean_ops_truncate true (mkBitSet (Some [12; 240]) 16)
           (mkBitSet (Some [10]) 8) [12; 240] [10]); try reflexivity.
  - concrete_initialized [12; 240].
  - concrete_initialized [10].
Defined.

Example or_16_8 :
  BitSet_or false (Some (mkBitSet (Some [12; 240]) 16))
    (Some (mkBitSet (Some [10]) 8))
  = Ok (mkBitSet (Some [14; 240]) 16).
Proof. reflexivity. Qed.

(** 57 and 60 bits end in the same byte: eight bytes are processed
    whichever way round the operands are. *)
Example same_byte_57_60 :
  let a := mkBitSet (Some (replicate 8 1)) 57 in
  let b := mkBitSet (Some (replicate 8 2)) 60 in
  BitSet_xor false (Some a) (Some b) = Ok (mkBitSet (Some (replicate 8 3)) 57)
  /\ BitSet_xor false (Some b) (Some a)
     = Ok (mkBitSet (Some (replicate 8 3)) 60).
Proof. split; reflexivity. Qed.

(** ** Comparison *)

(** From byte [i] on, [count] bytes to go: 1 when the two runs of bytes
    agree, 0 otherwise. *)
Lemma equals_range (la lb : list Z) : forall (count : nat) (i : nat),
  (i + count <= length la)%nat -> (i + count <= length lb)%nat ->
  BitSet_equals_loop count (Z.of_nat i) (Some la) (Some lb)
  = Ok (if decide (take count (drop i la) = take count (drop i lb))
        then 1 else 0).
Proof.
  induction count as [| count IH]; intros i Ha Hb.
  - cbn [BitSet_equals_loop]. by rewrite !take_0, decide_True.
  - destruct (lookup_lt_is_Some_2 la i ltac:(lia)) as [x Hx].
    destruct (lookup_lt_is_Some_2 lb i ltac:(lia)) as [y Hy].
    cbn [BitSet_equals_loop].
    rewrite (load_Some la (Z.of_nat i) x), (load_Some lb (Z.of_nat i) y)
      by (lia || by rewrite Nat2Z.id).
    cbn [bind].
    rewrite (drop_S la x i Hx), (drop_S lb y i Hy). cbn [take].
    destruct (Z.eqb_spec x y) as [-> | Hne]; cbn [negb].
    + replace (Z.of_nat i + 1) with (Z.of_nat (S i)) by lia.
      rewrite IH by lia.
      destruct (decide (take count (drop (S i) la)
                        = take count (drop (S i) lb))) as [-> | Hrest].
      * by rewrite decide_True.
      * rewrite decide_False; [done |]. by intros [= ?].
    + rewrite decide_False; [done |]. by intros [= ?].
Qed.

Lemma BitSet_equals_ok debug a b la lb :
  initialized a -> initialized b ->
  bits a = Some la -> bits b = Some lb ->
  BitSet_equals debug (Some a) (Some b)
  = Ok (if bit_len a =? bit_len b
        then (if decide (la = lb) then 1 else 0) else 0).
Proof.
  intros Ha Hb Hla Hlb. unfold BitSet_equals. simpl.
  rewrite BITSET_ASSERT_true. simpl.
  destruct (Z.eqb_spec (bit_len a) (bit_len b)) as [Heq | Hne]; [| done].
  simpl. rewrite initialized_byte_len by done. simpl.
  destruct Ha as (_ & la' & Hla' & Hlena & _).
  destruct Hb as (_ & lb' & Hlb' & Hlenb & _).
  assert (la' = la) as -> by congruence.
  assert (lb' = lb) as -> by congruence.
  assert (Hsame : length la = length lb) by (rewrite Heq in Hlena; lia).
  rewrite Hla, Hlb, <- Hlena, Nat2Z.id.
  pose proof (equals_range la lb (length la) 0%nat ltac:(lia) ltac:(lia))
    as Hloop.
  change (Z.of_nat 0) with 0 in Hloop. rewrite Hloop.
  rewrite !drop_0, firstn_all.
  rewrite (take_ge lb) by lia. done.
Qed.

(** C6: [equals] on initialized BitSets returns 0 when the bit lengths
    differ; for equal bit lengths it returns 1 when every storage byte of
    one equals the byte of the other at the same place, and 0 otherwise.
    Bits past [bit_len] in the last byte count: two BitSets that agree on
    every bit below [bit_len] can compare unequal. *)
Theorem equals_storage_exact (debug : bool) (a b : BitSet) (la lb : list Z) :
  initialized a -> initialized b ->
  bits a = Some la -> bits b = Some lb ->
  (bit_len a <> bit_len b -> BitSet_equals debug (Some a) (Some b) = Ok 0) /\
  (bit_len a = bit_len b ->
     (BitSet_equals debug (Some a) (Some b) = Ok 1 \/
      BitSet_equals debug (Some a) (Some b) = Ok 0) /\
     (BitSet_equals debug (Some a) (Some b) = Ok 1 <->
      forall j, 0 <= j < (bit_len a + 7) / 8 -> byte_at la j = byte_at lb j)) /\
  exists p q,
    initialized p /\ initialized q /\ bit_len p = bit_len q /\
    (forall index, 0 <= index < bit_len p ->
       BitSet_get debug (Some p) index = BitSet_get debug (Some q) index) /\
    BitSet_equals debug (Some p) (Some q) = Ok 0.
Proof.
  intros Ha Hb Hla Hlb.
  pose proof (BitSet_equals_ok debug a b la lb Ha Hb Hla Hlb) as Heq.
  split_and!.
  - intros Hne. rewrite Heq.
    by destruct (Z.eqb_spec (bit_len a) (bit_len b)).
  - intros Hlen. rewrite Heq, Hlen, Z.eqb_refl.
    destruct Ha as (_ & la' & Hla' & Hlena & _).
    destruct Hb as (_ & lb' & Hlb' & Hlenb & _).
    assert (la' = la) as -> by congruence.
    assert (lb' = lb) as -> by congruence.
    destruct (decide (la = lb)) as [-> | Hne].
    + split.
      * by left.
      * split; [intros _ j _; reflexivity | reflexivity].
    + split; [by right |]. split; [done |]. intros Hbytes.
      exfalso. apply Hne. rewrite Hlen in Hlena.
      apply list_eq_same_length with (length la); [lia | lia |].
      intros i x y Hi Hx Hy.
      specialize (Hbytes (Z.of_nat i) ltac:(lia)).
      unfold byte_at in Hbytes. rewrite Nat2Z.id, Hx, Hy in Hbytes. done.
  - exists (mkBitSet (Some [15]) 4), (mkBitSet (Some [31]) 4).
    assert (Hwf : forall v, is_byte v -> initialized (mkBitSet (Some [v]) 4)).
    { intros v Hv. split; [vm_compute; split; discriminate |].
      exists [v]. split_and!; [done | done | by apply Forall_singleton]. }
    split_and!.
    + apply Hwf. unfold is_byte. lia.
    + apply Hwf. unfold is_byte. lia.
    + done.
    + simpl. intros index Hindex.
      assert (index = 0 \/ index = 1 \/ index = 2 \/ index = 3)
        as [-> | [-> | [-> | ->]]] by lia; by destruct debug.
    + by destruct debug.
Qed.

Lemma equals_storage_exact_witness :
  BitSet_equals true (Some (mkBitSet (Some [15]) 4))
    (Some (mkBitSet (Some [31]) 5)) = Ok 0.
Proof.
  apply (equals_storage_exact true (mkBitSet (Some [15]) 4)
           (mkBitSet (Some [31]) 5) [15] [31]).
  - concrete_initialized [15].
  - concrete_initialized [31].
  - reflexivity.
  - reflexivity.
  - simpl. lia.
Defined.

(** ** Index mapping *)

Lemma wrap_add_wrap a b : wrap (wrap a + wrap b) = wrap (a + b).
Proof.
  unfold wrap. by rewrite Z.add_mod_idemp_l, Z.add_mod_idemp_r.
Qed.

Lemma wrap_mul_wrap_r a b : wrap (a * wrap b) = wrap (a * b).
Proof. unfold wrap. by rewrite Z.mul_mod_idemp_r. Qed.

Lemma wrap_mul_wrap_l a b : wrap (wrap a * b) = wrap (a * b).
Proof. unfold wrap. by rewrite Z.mul_mod_idemp_l. Qed.

Lemma product_snoc dims d : product (dims ++ [d]) = product dims * d.
Proof.
  unfold product. induction dims as [| d' dims IH]; simpl; [lia |].
  rewrite IH. lia.
Qed.

Lemma product_pos dims : Forall (fun d => 0 < d) dims -> 0 < product dims.
Proof.
  unfold product. induction 1 as [| d dims Hd _ IH]; simpl; [lia | nia].
Qed.

Lemma row_major_snoc : forall dims indices d x,
  length dims = length indices ->
  row_major (dims ++ [d]) (indices ++ [x]) = row_major dims indices * d + x.
Proof.
  induction dims as [| d' dims IH]; intros [| x' indices] d x Hlen;
    simplify_eq/=; [lia |].
  rewrite IH, product_snoc by done. lia.
Qed.

Lemma row_major_bound dims indices :
  Forall2 in_extent indices dims ->
  0 <= row_major dims indices < product dims.
Proof.
  induction 1 as [| x d indices dims [Hx0 Hxd] _ IH]; simpl; [lia |].
  fold (product dims). nia.
Qed.

Lemma coords_snoc dims d index :
  coords (dims ++ [d]) index = coords dims (index / d) ++ [index mod d].
Proof. unfold coords. by rewrite reverse_snoc, <- reverse_cons. Qed.

(** [coords] undoes [row_major] on coordinates inside the extents. *)
Lemma coords_row_major : forall dims indices,
  Forall2 in_extent indices dims ->
  coords dims (row_major dims indices) = indices.
Proof.
  induction dims as [| d dims IH] using rev_ind; intros indices Hin.
  - by apply Forall2_nil_inv_r in Hin as ->.
  - apply Forall2_app_inv_r in Hin as (xs & ys & Hxs & Hys & ->).
    apply Forall2_cons_inv_r in Hys as (x & ys' & [Hx0 Hxd] & Hys' & ->).
    apply Forall2_nil_inv_r in Hys' as ->.
    rewrite row_major_snoc by (symmetry; by eapply Forall2_length).
    rewrite coords_snoc.
    rewrite <- (Z.div_unique_pos (row_major dims xs * d + x) d
                  (row_major dims xs) x) by lia.
    rewrite <- (Z.mod_unique_pos (row_major dims xs * d + x) d
                  (row_major dims xs) x) by lia.
    by rewrite IH.
Qed.

(** Indices that differ by a multiple of the number of cells have the same
    coordinates. *)
Lemma coords_mod_product : forall dims index,
  Forall (fun d => 0 < d) dims ->
  coords dims (index mod product dims) = coords dims index.
Proof.
  induction dims as [| d dims IH] using rev_ind; intros index Hpos; [done |].
  apply Forall_app in Hpos as [Hdims Hd]. apply Forall_inv in Hd.
  pose proof (product_pos dims Hdims) as HP.
  rewrite product_snoc, !coords_snoc, (Z.mul_comm (product dims) d).
  rewrite Z.rem_mul_r by lia.
  pose proof (Z.mod_pos_bound index d Hd).
  rewrite <- (Z.div_unique_pos
                (index mod d + d * ((index / d) mod product dims)) d
                ((index / d) mod product dims) (index mod d)) by lia.
  rewrite <- (Z.mod_unique_pos
                (index mod d + d * ((index / d) mod product dims)) d
                ((index / d) mod product dims) (index mod d)) by lia.
  by rewrite IH.
Qed.

Lemma coords_length dims index : length (coords dims index) = length dims.
Proof.
  unfold coords. rewrite length_reverse, <- (length_reverse dims).
  generalize (reverse dims) index. clear.
  induction l as [| d l IH]; intros index; simpl; [done |]. by rewrite IH.
Qed.

Lemma coords_in_extent : forall dims index,
  Forall (fun d => 0 < d) dims -> Forall2 in_extent (coords dims index) dims.
Proof.
  induction dims as [| d dims IH] using rev_ind; intros index Hpos.
  - constructor.
  - apply Forall_app in Hpos as [Hdims Hd]. apply Forall_inv in Hd.
    rewrite coords_snoc. apply Forall2_app; [by apply IH |].
    constructor; [| constructor]. unfold in_extent.
    by apply Z.mod_pos_bound.
Qed.

Lemma row_major_coords : forall dims index,
  Forall (fun d => 0 < d) dims ->
  row_major dims (coords dims index) = index mod product dims.
Proof.
  induction dims as [| d dims IH] using rev_ind; intros index Hpos.
  - simpl. by rewrite Z.mod_1_r.
  - apply Forall_app in Hpos as [Hdims Hd]. apply Forall_inv in Hd.
    pose proof (product_pos dims Hdims) as HP.
    rewrite coords_snoc, row_major_snoc by (by rewrite coords_length).
    rewrite IH, product_snoc, (Z.mul_comm (product dims) d) by done.
    rewrite Z.rem_mul_r by lia. lia.
Qed.

(** The loop of [linear_index] with [i] dimensions still to fold in holds
    the offset and the multiplier of the dimensions already done, both
    reduced modulo [2^64]. *)
Lemma linear_index_loop_spec (dims indices : list Z) :
  forall (i : nat) index mult,
  length indices = length dims -> (i <= length dims)%nat ->
  index = wrap (row_major (drop i dims) (drop i indices)) ->
  mult = wrap (product (drop i dims)) ->
  linear_index_loop i (Some dims) (Some indices) index mult
  = Ok (wrap (row_major dims indices)).
Proof.
  induction i as [| i IH]; intros index mult Hlen Hi -> ->.
  - done.
  - destruct (lookup_lt_is_Some_2 dims i ltac:(lia)) as [d Hd].
    destruct (lookup_lt_is_Some_2 indices i ltac:(lia)) as [x Hx].
    cbn [linear_index_loop].
    rewrite (load_Some indices (Z.of_nat i) x) by (lia || by rewrite Nat2Z.id).
    cbn [bind].
    rewrite (load_Some dims (Z.of_nat i) d) by (lia || by rewrite Nat2Z.id).
    cbn [bind]. apply IH; [done | lia | |].
    + rewrite (drop_S dims d i Hd), (drop_S indices x i Hx). simpl.
      fold (product (drop (S i) dims)).
      by rewrite wrap_mul_wrap_r, wrap_add_wrap, Z.add_comm.
    + rewrite (drop_S dims d i Hd). simpl.
      fold (product (drop (S i) dims)).
      by rewrite wrap_mul_wrap_l, Z.mul_comm.
Qed.

Lemma linear_index_spec (dims indices : list Z) :
  length indices = length dims ->
  linear_index (Z.of_nat (length dims)) (Some dims) (Some indices)
  = Ok (wrap (row_major dims indices)).
Proof.
  intros Hlen. unfold linear_index. rewrite Nat2Z.id.
  apply linear_index_loop_spec; [done | done | |].
  - by rewrite drop_all.
  - by rewrite drop_all.
Qed.

(** The loop of [inverse_linear_index] with [count] dimensions to go
    writes the coordinates of the first [count] dimensions and leaves the
    later entries of the output array alone. *)
Lemma inverse_loop_spec (dims : list Z) :
  Forall (fun d => 0 < d) dims ->
  Z.of_nat (length dims) <= SIZE_MAX ->
  forall (count i : nat) index (out : list Z),
    (i + count = length dims)%nat -> length out = length dims ->
    exists q,
      for_range count (Z.of_nat i)
        (inverse_linear_index_body (Z.of_nat (length dims)) (Some dims))
        (index, Some out)
      = Ok (q, Some (coords (take count dims) index ++ drop count out)).
Proof.
  intros Hpos Hsize.
  induction count as [| count IH]; intros i index out Hi Hout.
  - exists index. by rewrite take_0, drop_0.
  - destruct (lookup_lt_is_Some_2 dims count ltac:(lia)) as [d Hd].
    assert (0 < d) as Hdpos by exact (Forall_lookup_1 _ _ _ _ Hpos Hd).
    rewrite for_range_succ. unfold inverse_linear_index_body at 1.
    assert (Hdim : wrap (wrap (Z.of_nat (length dims) - 1) - Z.of_nat i)
                   = Z.of_nat count).
    { rewrite (wrap_small (_ - 1)) by lia. rewrite wrap_small by lia. lia. }
    rewrite Hdim.
    rewrite (load_Some dims (Z.of_nat count) d) by (lia || by rewrite Nat2Z.id).
    cbn [bind]. unfold size_mod, size_div.
    destruct (Z.eqb_spec d 0); [lia |]. cbn [bind].
    rewrite store_Some by lia. cbn [bind]. rewrite Nat2Z.id.
    destruct (IH (S i) (index / d) (<[count := index mod d]> out))
      as [q Hq]; [lia | by rewrite length_insert |].
    exists q. replace (Z.of_nat i + 1) with (Z.of_nat (S i)) by lia.
    rewrite Hq. do 3 f_equal.
    rewrite (take_S_r dims count d Hd), coords_snoc, <- app_assoc. f_equal.
    rewrite (drop_S _ (index mod d) count)
      by (apply list_lookup_insert_eq; lia).
    by rewrite drop_insert_lt by lia.
Qed.

Lemma inverse_linear_index_spec (dims out : list Z) index :
  Forall (fun d => 0 < d) dims ->
  Z.of_nat (length dims) <= SIZE_MAX ->
  length out = length dims ->
  inverse_linear_index (Z.of_nat (length dims)) (Some dims) index (Some out)
  = Ok (Some (coords dims index)).
Proof.
  intros Hpos Hsize Hout. unfold inverse_linear_index, for_upto.
  rewrite Nat2Z.id.
  destruct (inverse_loop_spec dims Hpos Hsize (length dims) 0 index out)
    as [q Hq]; [done | done |].
  change (Z.of_nat 0) with 0 in Hq. rewrite Hq. cbn [bind snd].
  by rewrite firstn_all, drop_ge, app_nil_r by lia.
Qed.

Lemma in_extent_positive indices dims :
  Forall2 in_extent indices dims -> Forall (fun d => 0 < d) dims.
Proof.
  induction 1 as [| x d indices dims [Hx0 Hxd] _ IH]; constructor; [lia | done].
Qed.

(** C2, amended: for extents whose product is at most [2^64] (every
    linear index fits [size_t]) and coordinates inside the extents,
    [inverse_linear_index] of [linear_index] gives the coordinates back. *)
Theorem index_roundtrip_in_range (dims indices out : list Z) :
  Forall2 in_extent indices dims ->
  product dims <= SIZE_MAX + 1 ->
  Z.of_nat (length dims) <= SIZE_MAX ->
  length out = length dims ->
  index_roundtrip dims indices out.
Proof.
  intros Hin Hprod Hsize Hout.
  pose proof (row_major_bound dims indices Hin) as Hbound.
  exists (row_major dims indices). split.
  - rewrite linear_index_spec by (by eapply Forall2_length).
    by rewrite wrap_small by lia.
  - rewrite inverse_linear_index_spec
      by (done || by eapply in_extent_positive).
    by rewrite coords_row_major.
Qed.

Lemma index_roundtrip_in_range_witness :
  index_roundtrip [2; 2] [1; 1] [0; 0] /\
  index_roundtrip [3; 4; 5] [2; 0; 4] [0; 0; 0].
Proof.
  split.
  - apply (index_roundtrip_in_range [2; 2] [1; 1] [0; 0]);
      [| vm_compute; discriminate | vm_compute; discriminate | reflexivity].
    repeat constructor; lia.
  - apply (index_roundtrip_in_range [3; 4; 5] [2; 0; 4] [0; 0; 0]);
      [| vm_compute; discriminate | vm_compute; discriminate | reflexivity].
    repeat constructor; lia.
Defined.

Example linear_index_2_2 :
  linear_index 2 (Some [2; 2]) (Some [1; 1]) = Ok 3
  /\ inverse_linear_index 2 (Some [2; 2]) 3 (Some [0; 0]) = Ok (Some [1; 1]).
Proof. split; reflexivity. Qed.

(** C2 as stated fails once the offset passes [SIZE_MAX]: for extents
    [3; 2^63] the coordinates [2; 1] have offset [2 * 2^63 + 1], which
    [linear_index] returns as 1, the offset of [0; 1]. *)
Lemma index_roundtrip_counterexample :
  Forall2 in_extent [2; 1] [3; 2 ^ 63] /\
  ~ index_roundtrip [3; 2 ^ 63] [2; 1] [0; 0].
Proof.
  split; [repeat constructor; lia |].
  intros (index & Hlin & Hinv).
  vm_compute in Hlin. injection Hlin as <-.
  vm_compute in Hinv. discriminate.
Qed.

Example linear_index_overflow_run :
  linear_index 2 (Some [3; 2 ^ 63]) (Some [2; 1]) = Ok 1
  /\ inverse_linear_index 2 (Some [3; 2 ^ 63]) 1 (Some [0; 0])
     = Ok (Some [0; 1]).
Proof. split; reflexivity. Qed.

(** C8: for positive extents and an index at or beyond the number of
    cells, [inverse_linear_index] returns, and writes the coordinates of
    the index reduced modulo the number of cells: the tuple inside the
    extents whose row-major offset is [index mod product dims], which is
    also what the call on the reduced index writes. *)
Theorem inverse_wraps (dims out : list Z) (index : Z) :
  Forall (fun d => 0 < d) dims ->
  product dims <= index ->
  Z.of_nat (length dims) <= SIZE_MAX ->
  length out = length dims ->
  exists cs,
    inverse_linear_index (Z.of_nat (length dims)) (Some dims) index (Some out)
    = Ok (Some cs) /\
    inverse_linear_index (Z.of_nat (length dims)) (Some dims)
      (index mod product dims) (Some out)
    = Ok (Some cs) /\
    cs = coords dims (index mod product dims) /\
    Forall2 in_extent cs dims /\
    row_major dims cs = index mod product dims /\
    length cs = length dims.
Proof.
  intros Hpos Hindex Hsize Hout. exists (coords dims index).
  rewrite !inverse_linear_index_spec by done.
  rewrite coords_mod_product by done. split_and!.
  - done.
  - done.
  - done.
  - by apply coords_in_extent.
  - by apply row_major_coords.
  - apply coords_length.
Qed.

Lemma inverse_wraps_witness :
  exists cs,
    inverse_linear_index 2 (Some [2; 2]) 7 (Some [0; 0]) = Ok (Some cs) /\
    inverse_linear_index 2 (Some [2; 2]) (7 mod product [2; 2]) (Some [0; 0])
    = Ok (Some cs) /\
    cs = coords [2; 2] (7 mod product [2; 2]) /\
    Forall2 in_extent cs [2; 2] /\
    row_major [2; 2] cs = 7 mod product [2; 2] /\
    length cs = 2%nat.
Proof.
  apply (inverse_wraps [2; 2] [0; 0] 7);
    [| vm_compute; discriminate | vm_compute; discriminate | reflexivity].
  repeat constructor; lia.
Defined.

Example inverse_wraps_run :
  inverse_linear_index 2 (Some [2; 2]) 7 (Some [0; 0]) = Ok (Some [1; 1])
  /\ inverse_linear_index 3 (Some [3; 4; 5]) 107 (Some [9; 9; 9])
     = Ok (Some [2; 1; 2])
  /\ inverse_linear_index 3 (Some [3; 4; 5]) 47 (Some [9; 9; 9])
     = Ok (Some [2; 1; 2]).
Proof. by vm_compute. Qed.

(** ** Printing *)

Local Open Scope string_scope.

Lemma string_app_assoc (s1 s2 s3 : string) :
  (s1 ++ s2) ++ s3 = s1 ++ (s2 ++ s3).
Proof. induction s1 as [| c s1 IH]; simpl; [done | by rewrite IH]. Qed.

Lemma string_app_empty_r (s : string) : s ++ EmptyString = s.
Proof. induction s as [| c s IH]; simpl; [done | by rewrite IH]. Qed.

Lemma fmt_d_bit (b : bool) : fmt_d (Z.b2z b) = bit_char b.
Proof. by destruct b. Qed.

Local Close Scope string_scope.

Section Print.

Variable debug : bool.
Variables (bs : BitSet) (l : list Z).
Hypothesis Hinit : initialized bs.
Hypothesis Hbits : bits bs = Some l.

Lemma print_body_ok (group i : Z) (out : string) :
  1 <= group <= INT_MAX -> 0 <= i < bit_len bs ->
  BitSet_print_body debug (Some bs) group i out
  = Ok (out ++ render_index l group i)%string.
Proof.
  intros Hgroup Hi. unfold BitSet_print_body.
  rewrite (BitSet_get_ok debug bs l) by
    (done || by eapply initialized_index_byte).
  cbn [bind]. rewrite fmt_d_bit.
  destruct Hinit as [Hn _].
  unfold int_to_size, INT_MAX, SIZE_MAX, SIZE_BITS in *.
  rewrite !wrap_small by (unfold SIZE_MAX, SIZE_BITS; lia).
  unfold size_mod. destruct (Z.eqb_spec group 0); [lia |]. cbn [bind].
  unfold render_index.
  destruct ((i + 1) mod group =? 0).
  - by rewrite string_app_assoc.
  - by rewrite string_app_empty_r.
Qed.

Lemma print_range (group : Z) : forall (count : nat) (i : Z) (out : string),
  1 <= group <= INT_MAX -> 0 <= i -> i + Z.of_nat count <= bit_len bs ->
  for_range count i (BitSet_print_body debug (Some bs) group) out
  = Ok (out ++ foldr String.append EmptyString
                 (render_index l group <$> seqZ i (Z.of_nat count)))%string.
Proof.
  induction count as [| count IH]; intros i out Hgroup Hi Hcount.
  - simpl. by rewrite string_app_empty_r.
  - rewrite for_range_succ, print_body_ok by lia. cbn [bind].
    rewrite IH by lia. rewrite (seqZ_cons i) by lia.
    replace (Z.pred (Z.of_nat (S count))) with (Z.of_nat count) by lia.
    replace (Z.succ i) with (i + 1) by lia.
    rewrite fmap_cons. cbn [foldr]. by rewrite string_app_assoc.
Qed.

Lemma print_zero_group :
  0 < bit_len bs -> BitSet_print debug (Some bs) 0 = Undefined.
Proof.
  intros Hlen. unfold BitSet_print. simpl.
  rewrite BITSET_ASSERT_true. cbn [bind]. unfold for_upto.
  destruct (Z.to_nat (bit_len bs)) as [| count] eqn:Hcount; [lia |].
  rewrite for_range_succ. unfold BitSet_print_body at 1.
  assert (Hbyte : 0 / 8 < Z.of_nat (length l))
    by (apply (initialized_index_byte bs); [done | done | lia]).
  rewrite (BitSet_get_ok debug bs l 0 Hbits ltac:(lia) Hbyte).
  done.
Qed.

End Print.

(** C10: on an initialized BitSet with at least one bit, [BitSet_print]
    with group size 0 computes [(0 + 1) % 0], a division by zero; with a
    group size of at least 1 it writes, for each index below [bit_len] in
    turn, the character 0 or 1 of that bit, followed by a line break
    whenever the count of bits written so far is a multiple of the group
    size, and ends with one more line break. *)
Theorem print_grouping (debug : bool) (bs : BitSet) (l : list Z) :
  initialized bs -> bits bs = Some l ->
  (0 < bit_len bs ->
     (exists v, BitSet_get debug (Some bs) 0 = Ok v) /\
     size_mod (wrap (0 + 1)) (int_to_size 0) = Undefined /\
     BitSet_print debug (Some bs) 0 = Undefined) /\
  (forall group, 1 <= group <= INT_MAX ->
     BitSet_print debug (Some bs) group = Ok (render l (bit_len bs) group)).
Proof.
  intros Hinit Hbits. split.
  { intros Hlen. split_and!; [| done | by apply (print_zero_group debug bs l)].
    eexists. apply (BitSet_get_ok debug bs l); [done | lia |].
    apply (initialized_index_byte bs); [done | done | lia]. }
  intros group Hgroup. unfold BitSet_print. simpl.
  rewrite BITSET_ASSERT_true. cbn [bind]. unfold for_upto.
  pose proof Hinit as [Hn _].
  rewrite (print_range debug bs l Hinit Hbits) by lia. cbn [bind].
  by rewrite Z2Nat.id by lia.
Qed.

Lemma print_grouping_witness :
  BitSet_print true (Some (mkBitSet (Some [5; 10]) 12)) 0 = Undefined.
Proof.
  apply (print_grouping true (mkBitSet (Some [5; 10]) 12) [5; 10]).
  - concrete_initialized [5; 10].
  - reflexivity.
  - simpl. lia.
Defined.

Example print_12_bits :
  BitSet_print true (Some (mkBitSet (Some [5; 10]) 12)) 5
  = Ok (render [5; 10] 12 5).
Proof. reflexivity. Qed.

(** * Further properties of the library *)

(** ** Buffers are determined by their bits *)

Lemma byte_at_out (l : list Z) j : Z.of_nat (length l) <= j -> byte_at l j = 0.
Proof.
  intros Hj. unfold byte_at. rewrite lookup_ge_None_2; [done | lia].
Qed.

Lemma byte_ext x y :
  is_byte x -> is_byte y ->
  (forall k, 0 <= k < 8 -> Z.testbit x k = Z.testbit y k) -> x = y.
Proof.
  intros Hx Hy Hbits. apply Z.bits_inj'. intros j Hj.
  destruct (Z.ltb_spec j 8); [apply Hbits; lia |].
  by rewrite !byte_testbit_high.
Qed.

Lemma bit_of_byte (l : list Z) j k :
  0 <= j -> 0 <= k < 8 -> bit_of l (8 * j + k) = Z.testbit (byte_at l j) k.
Proof.
  intros Hj Hk. unfold bit_of.
  rewrite <- (Z.div_unique_pos (8 * j + k) 8 j k) by lia.
  by rewrite <- (Z.mod_unique_pos (8 * j + k) 8 j k) by lia.
Qed.

(** Two buffers of the same length that agree on every bit are equal. *)
Lemma bits_ext (l1 l2 : list Z) :
  length l1 = length l2 -> Forall is_byte l1 -> Forall is_byte l2 ->
  (forall p, 0 <= p < 8 * Z.of_nat (length l1) -> bit_of l1 p = bit_of l2 p) ->
  l1 = l2.
Proof.
  intros Hlen H1 H2 Hbits.
  apply list_eq_same_length with (length l1); [done | done |].
  intros i x y Hi Hx Hy.
  apply byte_ext;
    [exact (Forall_lookup_1 _ _ _ _ H1 Hx)
    | exact (Forall_lookup_1 _ _ _ _ H2 Hy) |].
  intros k Hk.
  specialize (Hbits (8 * Z.of_nat i + k) ltac:(lia)).
  rewrite !bit_of_byte in Hbits by lia.
  unfold byte_at in Hbits. by rewrite Nat2Z.id, Hx, Hy in Hbits.
Qed.

Lemma bit_of_out (l : list Z) p :
  8 * Z.of_nat (length l) <= p -> bit_of l p = false.
Proof.
  intros Hp. unfold bit_of. rewrite byte_at_out; [apply Z.bits_0 |].
  apply Z.div_le_lower_bound; lia.
Qed.

(** ** Complement *)

Lemma not_byte_is_byte x : is_byte (not_byte x).
Proof. apply to_u8_is_byte. Qed.

Lemma testbit_not_byte x k :
  0 <= k < 8 -> Z.testbit (not_byte x) k = negb (Z.testbit x k).
Proof.
  intros Hk. unfold not_byte. rewrite testbit_to_u8, Z.lnot_spec by lia.
  destruct (Z.ltb_spec k 8); [done | lia].
Qed.

Lemma not_byte_twice x : is_byte x -> not_byte (not_byte x) = x.
Proof.
  intros Hx. apply byte_ext; [apply not_byte_is_byte | done |].
  intros k Hk. rewrite !testbit_not_byte by done. apply negb_involutive.
Qed.

(** The loop of [BitSet_not] from byte [i] on, [count] bytes to go. *)
Lemma not_range : forall (count : nat) (i : nat) (l : list Z),
  (i + count <= length l)%nat ->
  for_range count (Z.of_nat i) (fun i p => update_byte Z.lnot p i) (Some l)
  = Ok (Some (take i l ++ (not_byte <$> take count (drop i l))
              ++ drop (i + count) l)).
Proof.
  induction count as [| count IH]; intros i l Hlen.
  - simpl. by rewrite Nat.add_0_r, take_drop.
  - destruct (lookup_lt_is_Some_2 l i ltac:(lia)) as [x Hx].
    rewrite for_range_succ.
    rewrite (update_byte_Some _ l (Z.of_nat i) x)
      by (lia || by rewrite Nat2Z.id).
    cbn [bind]. rewrite Nat2Z.id.
    replace (Z.of_nat i + 1) with (Z.of_nat (S i)) by lia.
    rewrite IH by (rewrite length_insert; lia).
    do 2 f_equal.
    rewrite (take_S_r _ i (not_byte x)) by (apply list_lookup_insert_eq; lia).
    rewrite take_insert_ge by lia.
    rewrite !drop_insert_lt by lia.
    rewrite (drop_S l x i Hx). cbn [take fmap list_fmap].
    rewrite <- app_assoc. simpl. by rewrite Nat.add_succ_r.
Qed.

Lemma BitSet_not_ok debug bs l :
  initialized bs -> bits bs = Some l ->
  BitSet_not debug (Some bs)
  = Ok (mkBitSet (Some (not_byte <$> l)) (bit_len bs)).
Proof.
  intros Hinit Hbits. unfold BitSet_not.
  rewrite initialized_byte_len by done. simpl.
  rewrite BITSET_ASSERT_true. cbn [bind].
  destruct Hinit as (_ & l' & Hl' & Hlen & _).
  assert (l' = l) as -> by congruence.
  rewrite Hbits, <- Hlen. unfold for_upto. rewrite Nat2Z.id.
  pose proof (not_range (length l) 0 l ltac:(lia)) as Hrun.
  change (Z.of_nat 0) with 0 in Hrun. rewrite Hrun. cbn [bind].
  rewrite take_0, drop_0, firstn_all, drop_ge, app_nil_r by lia. done.
Qed.

Lemma initialized_fmap_not bs l :
  initialized bs -> bits bs = Some l ->
  initialized (mkBitSet (Some (not_byte <$> l)) (bit_len bs)).
Proof.
  intros (Hn & l' & Hl' & Hlen & _) Hbits.
  assert (l' = l) as -> by congruence.
  split; [done |]. eexists. split_and!; [done | |].
  - by rewrite length_fmap.
  - apply Forall_fmap, Forall_true. intros x. apply not_byte_is_byte.
Qed.

Lemma bit_of_fmap_not (l : list Z) p :
  0 <= p < 8 * Z.of_nat (length l) ->
  bit_of (not_byte <$> l) p = negb (bit_of l p).
Proof.
  intros Hp. unfold bit_of.
  assert (0 <= p / 8 < Z.of_nat (length l)) as Hbyte.
  { split; [apply Z.div_pos; lia | apply Z.div_lt_upper_bound; lia]. }
  assert (Hk : 0 <= p mod 8 < 8) by (apply Z.mod_pos_bound; lia).
  pose proof (byte_present l (p / 8) Hbyte) as Hx.
  unfold byte_at at 1. rewrite list_lookup_fmap, Hx. simpl.
  by apply testbit_not_byte.
Qed.

(** X1: [BitSet_not] on an initialized BitSet complements every bit of the
    storage, those past [bit_len] in the last byte included, keeps
    [bit_len], and turns every [get] below [bit_len] round. *)
Theorem not_complements (debug : bool) (bs : BitSet) (l : list Z) :
  initialized bs -> bits bs = Some l ->
  exists l',
    BitSet_not debug (Some bs) = Ok (mkBitSet (Some l') (bit_len bs)) /\
    length l' = length l /\
    (forall p, 0 <= p < 8 * Z.of_nat (length l) ->
       bit_of l' p = negb (bit_of l p)) /\
    (forall index, 0 <= index < bit_len bs ->
       exists v,
         BitSet_get debug (Some bs) index = Ok v /\
         BitSet_get debug (Some (mkBitSet (Some l') (bit_len bs))) index
         = Ok (1 - v)).
Proof.
  intros Hinit Hbits. exists (not_byte <$> l). split_and!.
  - by apply BitSet_not_ok.
  - by rewrite length_fmap.
  - apply bit_of_fmap_not.
  - intros index Hindex.
    pose proof (initialized_index_byte _ _ _ Hinit Hbits Hindex) as Hbyte.
    exists (Z.b2z (bit_of l index)). split; [by apply BitSet_get_ok |].
    rewrite (BitSet_get_ok debug _ (not_byte <$> l))
      by (done || by rewrite length_fmap).
    rewrite bit_of_fmap_not.
    + by destruct (bit_of l index).
    + pose proof (Z.div_mod index 8 ltac:(lia)).
      pose proof (Z.mod_pos_bound index 8 ltac:(lia)). lia.
Qed.

Lemma not_complements_witness :
  exists l',
    BitSet_not true (Some (mkBitSet (Some [5; 10]) 12))
    = Ok (mkBitSet (Some l') 12) /\
    length l' = 2%nat /\
    (forall p, 0 <= p < 8 * 2 -> bit_of l' p = negb (bit_of [5; 10] p)) /\
    (forall index, 0 <= index < 12 ->
       exists v,
         BitSet_get true (Some (mkBitSet (Some [5; 10]) 12)) index = Ok v /\
         BitSet_get true (Some (mkBitSet (Some l') 12)) index = Ok (1 - v)).
Proof.
  apply (not_complements true (mkBitSet (Some [5; 10]) 12) [5; 10]);
    [| reflexivity].
  concrete_initialized [5; 10].
Defined.

(** X2: [BitSet_not] applied twice to an initialized BitSet gives the BitSet
    back, storage bytes and [bit_len]. *)
Theorem not_twice (debug : bool) (bs : BitSet) :
  initialized bs ->
  exists bs',
    BitSet_not debug (Some bs) = Ok bs' /\
    initialized bs' /\
    BitSet_not debug (Some bs') = Ok bs.
Proof.
  intros Hinit. pose proof Hinit as (_ & l & Hbits & _ & Hall).
  exists (mkBitSet (Some (not_byte <$> l)) (bit_len bs)). split_and!.
  - by apply BitSet_not_ok.
  - by apply initialized_fmap_not.
  - rewrite (BitSet_not_ok debug _ (not_byte <$> l))
      by (done || by apply initialized_fmap_not).
    simpl. destruct bs as [p n]; simpl in *. subst p. do 3 f_equal.
    rewrite <- list_fmap_compose.
    rewrite <- (list_fmap_id l) at 2.
    apply Forall_fmap_ext_1. eapply Forall_impl; [exact Hall |].
    intros x Hx. simpl. by apply not_byte_twice.
Qed.

Lemma not_twice_witness :
  exists bs',
    BitSet_not false (Some (mkBitSet (Some [5; 10]) 12)) = Ok bs' /\
    initialized bs' /\
    BitSet_not false (Some bs') = Ok (mkBitSet (Some [5; 10]) 12).
Proof.
  apply (not_twice false (mkBitSet (Some [5; 10]) 12)).
  concrete_initialized [5; 10].
Defined.

(** X3: [clear_all] followed by [not] leaves what [set_all] leaves, and
    [set_all] followed by [not] what [clear_all] leaves. *)
Theorem not_of_fill (debug : bool) (bs : BitSet) :
  initialized bs ->
  exists ones zeros,
    BitSet_set_all debug (Some bs) = Ok ones /\
    BitSet_clear_all debug (Some bs) = Ok zeros /\
    BitSet_not debug (Some zeros) = Ok ones /\
    BitSet_not debug (Some ones) = Ok zeros.
Proof.
  intros Hinit. pose proof Hinit as [Hn _].
  eexists _, _. split_and!.
  - by apply BitSet_set_all_ok.
  - by apply BitSet_clear_all_ok.
  - erewrite BitSet_not_ok; [| apply initialized_replicate | reflexivity].
    + simpl. by rewrite fmap_replicate.
    + done.
    + unfold is_byte. lia.
  - erewrite BitSet_not_ok; [| apply initialized_replicate | reflexivity].
    + simpl. by rewrite fmap_replicate.
    + done.
    + unfold is_byte. lia.
Qed.

Lemma not_of_fill_witness :
  exists ones zeros,
    BitSet_set_all true (Some (mkBitSet (Some [5; 10]) 12)) = Ok ones /\
    BitSet_clear_all true (Some (mkBitSet (Some [5; 10]) 12)) = Ok zeros /\
    BitSet_not true (Some zeros) = Ok ones /\
    BitSet_not true (Some ones) = Ok zeros.
Proof.
  apply (not_of_fill true (mkBitSet (Some [5; 10]) 12)).
  concrete_initialized [5; 10].
Defined.

(** ** Copy *)

(** The loop of [BitSet_copy_construct] from byte [i] on. *)
Lemma copy_range (src : list Z) : forall (count : nat) (i : nat) (l : list Z),
  (i + count <= length l)%nat -> (i + count <= length src)%nat ->
  for_range count (Z.of_nat i)
    (fun i p => do x <- load (Some src) i; store p i x) (Some l)
  = Ok (Some (take i l ++ take count (drop i src) ++ drop (i + count) l)).
Proof.
  induction count as [| count IH]; intros i l Hl Hsrc.
  - simpl. by rewrite Nat.add_0_r, take_drop.
  - destruct (lookup_lt_is_Some_2 src i ltac:(lia)) as [x Hx].
    rewrite for_range_succ.
    rewrite (load_Some src (Z.of_nat i) x) by (lia || by rewrite Nat2Z.id).
    cbn [bind]. rewrite store_Some by lia. cbn [bind]. rewrite Nat2Z.id.
    replace (Z.of_nat i + 1) with (Z.of_nat (S i)) by lia.
    rewrite IH by (rewrite ?length_insert; lia).
    do 2 f_equal.
    rewrite (take_S_r _ i x) by (apply list_lookup_insert_eq; lia).
    rewrite take_insert_ge by lia.
    rewrite drop_insert_lt by lia.
    rewrite (drop_S src x i Hx). cbn [take].
    rewrite <- app_assoc. simpl. by rewrite Nat.add_succ_r.
Qed.

(** The copy loop on one block read and written at once. *)
Lemma self_copy_range : forall (count : nat) (i : nat) (l : list Z),
  (i + count <= length l)%nat ->
  for_range count (Z.of_nat i)
    (fun i p => do x <- load p i; store p i x) (Some l)
  = Ok (Some l).
Proof.
  induction count as [| count IH]; intros i l Hl; [done |].
  destruct (lookup_lt_is_Some_2 l i ltac:(lia)) as [x Hx].
  rewrite for_range_succ.
  rewrite (load_Some l (Z.of_nat i) x) by (lia || by rewrite Nat2Z.id).
  cbn [bind]. rewrite store_Some by lia. cbn [bind]. rewrite Nat2Z.id.
  rewrite (list_insert_id l i x Hx).
  replace (Z.of_nat i + 1) with (Z.of_nat (S i)) by lia.
  apply IH. lia.
Qed.

(** X4: when the allocation is granted and [dest] is another object than
    the initialized [src], [BitSet_copy_construct] leaves in [dest] the bit
    length and the storage bytes of [src], whatever the fresh block and
    [dest] held before, and [equals] on the copy and the source returns 1
    in either order.  Called with [src] itself as [dest] it leaves the
    contents of the fresh block instead: the storage of [src] is replaced
    before it is read. *)
Theorem copy_construct_copies (debug : bool) (alloc : Z -> bool)
    (garbage : nat -> Z) (dest src : BitSet) :
  initialized src -> alloc ((bit_len src + 7) / 8) = true ->
  (exists copy,
     BitSet_copy_construct debug alloc garbage (Some dest) (Some src)
     = Ok copy /\
     bit_len copy = bit_len src /\ bits copy = bits src /\
     BitSet_equals debug (Some copy) (Some src) = Ok 1 /\
     BitSet_equals debug (Some src) (Some copy) = Ok 1) /\
  BitSet_copy_construct_aliased debug alloc garbage (Some src)
  = Ok (mkBitSet
          (Some (garbage <$> seq 0 (Z.to_nat ((bit_len src + 7) / 8))))
          (bit_len src)).
Proof.
  intros Hinit Halloc. pose proof Hinit as (Hn & l & Hbits & Hlen & Hall).
  assert (Hsize : 0 <= (bit_len src + 7) / 8 <= SIZE_MAX).
  { rewrite <- byte_len_exact by done. apply byte_len_is_size. }
  split.
  - exists src.
    rewrite (BitSet_equals_ok debug src src l l) by done.
    rewrite Z.eqb_refl, decide_True by done.
    split_and!; try done.
    unfold BitSet_copy_construct. simpl. rewrite BITSET_ASSERT_true.
    cbn [bind]. rewrite initialized_byte_len by done. cbn [bind deref].
    unfold malloc. rewrite Z.mul_1_r, wrap_small, Halloc by done.
    simpl. rewrite BITSET_ASSERT_true. cbn [bind].
    rewrite Hbits. unfold for_upto. rewrite <- Hlen, Nat2Z.id.
    pose proof (copy_range l (length l) 0 (garbage <$> seq 0 (length l)))
      as Hrun.
    change (Z.of_nat 0) with 0 in Hrun.
    rewrite Hrun by (rewrite ?length_fmap, ?length_seq; lia).
    cbn [bind]. rewrite take_0, drop_0, firstn_all.
    rewrite drop_ge, app_nil_r by (rewrite length_fmap, length_seq; lia).
    simpl. destruct src as [p n]; simpl in *. by subst p.
  - unfold BitSet_copy_construct_aliased. simpl. rewrite BITSET_ASSERT_true.
    cbn [bind]. rewrite initialized_byte_len by done. cbn [bind deref].
    unfold malloc. rewrite Z.mul_1_r, wrap_small, Halloc by done.
    simpl. rewrite BITSET_ASSERT_true. cbn [bind]. unfold for_upto.
    pose proof (self_copy_range (Z.to_nat ((bit_len src + 7) / 8)) 0
                  (garbage <$> seq 0 (Z.to_nat ((bit_len src + 7) / 8))))
      as Hrun.
    change (Z.of_nat 0) with 0 in Hrun.
    rewrite Hrun by (rewrite length_fmap, length_seq; lia).
    done.
Qed.

Lemma copy_construct_copies_witness :
  (exists copy,
     BitSet_copy_construct true grant_all (fun _ => 170) (Some blank)
       (Some (mkBitSet (Some [5; 10]) 12)) = Ok copy /\
     bit_len copy = 12 /\ bits copy = Some [5; 10] /\
     BitSet_equals true (Some copy) (Some (mkBitSet (Some [5; 10]) 12))
     = Ok 1 /\
     BitSet_equals true (Some (mkBitSet (Some [5; 10]) 12)) (Some copy)
     = Ok 1) /\
  BitSet_copy_construct_aliased true grant_all (fun _ => 170)
    (Some (mkBitSet (Some [5; 10]) 12))
  = Ok (mkBitSet (Some [170; 170]) 12).
Proof.
  apply (copy_construct_copies true grant_all (fun _ => 170) blank
           (mkBitSet (Some [5; 10]) 12)); [| reflexivity].
  concrete_initialized [5; 10].
Defined.

(** ** Values of [get] *)

(** X5: Whenever [BitSet_get] returns, it returns 0 or 1. *)
Theorem get_is_bit (debug : bool) (bs : BitSet_ptr) (index v : Z) :
  BitSet_get debug bs index = Ok v -> v = 0 \/ v = 1.
Proof.
  unfold BitSet_get. intros Hget.
  destruct (BITSET_ASSERT debug (non_null bs) _); [| done | done].
  cbn [bind] in Hget. destruct (deref bs) as [b | |]; [| done | done].
  cbn [bind] in Hget.
  destruct (BITSET_ASSERT debug (index <? bit_len b) _); [| done | done].
  cbn [bind] in Hget.
  destruct (load (bits b) (index / 8)) as [x | |]; [| done | done].
  cbn [bind] in Hget. injection Hget as <-.
  rewrite shift_and_one by (apply Z.mod_pos_bound; lia).
  destruct (Z.testbit x (index mod 8)); auto.
Qed.

Lemma get_is_bit_witness :
  Z.land (Z.shiftr 10 1) 1 = 0 \/ Z.land (Z.shiftr 10 1) 1 = 1.
Proof.
  apply (get_is_bit true (Some (mkBitSet (Some [5; 10]) 12)) 9).
  reflexivity.
Defined.

(** ** BitSets of no bits *)

Lemma BitSet_eta (bs : BitSet) : mkBitSet (bits bs) (bit_len bs) = bs.
Proof. by destruct bs. Qed.

Lemma zero_byte_len debug bs :
  bit_len bs = 0 -> BitSet_get_byte_len debug (Some bs) = Ok 0.
Proof.
  intros Hlen. unfold BitSet_get_byte_len. simpl.
  rewrite BITSET_ASSERT_true, Hlen. done.
Qed.

(** X6: On a BitSet whose [bit_len] is 0, whatever its storage pointer (a
    zero-byte block, or [NULL] after [BitSet_free]): [set_all],
    [clear_all] and [not] return without touching anything; [print]
    writes one line break for every group size, 0 included; [or], [and]
    and [xor] with it on either side leave the destination as it was; the
    debug build stops every single-bit operation as out of bounds. *)
Theorem zero_length_operations (debug : bool) (bs other : BitSet)
    (group index : Z) :
  bit_len bs = 0 -> 0 <= bit_len other -> 0 <= index ->
  BitSet_set_all debug (Some bs) = Ok bs /\
  BitSet_clear_all debug (Some bs) = Ok bs /\
  BitSet_not debug (Some bs) = Ok bs /\
  BitSet_print debug (Some bs) group = Ok nl /\
  BitSet_or debug (Some other) (Some bs) = Ok other /\
  BitSet_and debug (Some other) (Some bs) = Ok other /\
  BitSet_xor debug (Some other) (Some bs) = Ok other /\
  BitSet_or debug (Some bs) (Some other) = Ok bs /\
  BitSet_and debug (Some bs) (Some other) = Ok bs /\
  BitSet_xor debug (Some bs) (Some other) = Ok bs /\
  BitSet_set true (Some bs) index
  = Trap "BitSet_set: Index out of bounds"%string /\
  BitSet_clear true (Some bs) index
  = Trap "BitSet_clear: Index out of bounds"%string /\
  BitSet_flip true (Some bs) index
  = Trap "BitSet_flip: Index out of bounds"%string /\
  BitSet_get true (Some bs) index
  = Trap "BitSet_get: Index out of bounds"%string.
Proof.
  intros Hlen Hother Hindex.
  pose proof (zero_byte_len debug bs Hlen) as Hbytes.
  assert (Hshort : forall d s : BitSet,
            bit_len d = 0 \/ bit_len s = 0 -> 0 <= bit_len d ->
            0 <= bit_len s ->
            BitSet_get_byte_len debug
              (if bit_len d <? bit_len s then Some d else Some s) = Ok 0).
  { intros d s Hzero Hd Hs.
    destruct (Z.ltb_spec (bit_len d) (bit_len s));
      apply zero_byte_len; lia. }
  assert (Hnoop : forall d s : BitSet,
            bit_len d = 0 \/ bit_len s = 0 -> 0 <= bit_len d ->
            0 <= bit_len s ->
            BitSet_or debug (Some d) (Some s) = Ok d /\
            BitSet_and debug (Some d) (Some s) = Ok d /\
            BitSet_xor debug (Some d) (Some s) = Ok d).
  { intros d s Hzero Hd Hs.
    unfold BitSet_or, BitSet_and, BitSet_xor, shorter. simpl.
    rewrite !BITSET_ASSERT_true. cbn [bind].
    rewrite (Hshort d s) by done. cbn [bind].
    unfold combine_bytes, for_upto. simpl. by rewrite BitSet_eta. }
  destruct (Hnoop other bs) as (Hor1 & Hand1 & Hxor1);
    [by right | done | lia |].
  destruct (Hnoop bs other) as (Hor2 & Hand2 & Hxor2);
    [by left | lia | done |].
  split_and!; try done.
  - unfold BitSet_set_all. simpl. rewrite BITSET_ASSERT_true. cbn [bind].
    rewrite Hbytes. simpl. by rewrite BitSet_eta.
  - unfold BitSet_clear_all. simpl. rewrite BITSET_ASSERT_true. cbn [bind].
    rewrite Hbytes. simpl. by rewrite BitSet_eta.
  - unfold BitSet_not. simpl. rewrite BITSET_ASSERT_true. cbn [bind].
    rewrite Hbytes. simpl. by rewrite BitSet_eta.
  - unfold BitSet_print. simpl. rewrite BITSET_ASSERT_true. cbn [bind].
    rewrite Hlen. done.
  - unfold BitSet_set. simpl. rewrite Hlen.
    destruct (Z.ltb_spec index 0); [lia | done].
  - unfold BitSet_clear. simpl. rewrite Hlen.
    destruct (Z.ltb_spec index 0); [lia | done].
  - unfold BitSet_flip. simpl. rewrite Hlen.
    destruct (Z.ltb_spec index 0); [lia | done].
  - unfold BitSet_get. simpl. rewrite Hlen.
    destruct (Z.ltb_spec index 0); [lia | done].
Qed.

Lemma zero_length_operations_witness :
  BitSet_print true (Some (mkBitSet (Some []) 0)) 0 = Ok nl.
Proof.
  apply (zero_length_operations true (mkBitSet (Some []) 0)
           (mkBitSet (Some [5; 10]) 12) 0 0); (reflexivity || simpl; lia).
Defined.

(** ** Release *)

(** X7: [BitSet_free] leaves [NULL] storage and [bit_len] 0 and can be called
    again on the same BitSet; afterwards the fast build of every
    single-bit operation dereferences [NULL], while the debug build stops
    it as out of bounds. *)
Theorem free_then_use (debug : bool) (bs : BitSet) (index : Z) :
  0 <= index ->
  exists freed,
    BitSet_free debug (Some bs) = Ok freed /\
    bits freed = None /\ bit_len freed = 0 /\
    BitSet_free debug (Some freed) = Ok freed /\
    BitSet_set false (Some freed) index = Undefined /\
    BitSet_clear false (Some freed) index = Undefined /\
    BitSet_flip false (Some freed) index = Undefined /\
    BitSet_get false (Some freed) index = Undefined /\
    BitSet_get true (Some freed) index
    = Trap "BitSet_get: Index out of bounds"%string.
Proof.
  intros Hindex. exists (mkBitSet None 0).
  unfold BitSet_free. simpl. rewrite BITSET_ASSERT_true.
  split_and!; try done.
  unfold BitSet_get. simpl. destruct (Z.ltb_spec index 0); [lia | done].
Qed.

Lemma free_then_use_witness :
  exists freed,
    BitSet_free true (Some (mkBitSet (Some [5; 10]) 12)) = Ok freed /\
    bits freed = None /\ bit_len freed = 0 /\
    BitSet_free true (Some freed) = Ok freed /\
    BitSet_set false (Some freed) 3 = Undefined /\
    BitSet_clear false (Some freed) 3 = Undefined /\
    BitSet_flip false (Some freed) 3 = Undefined /\
    BitSet_get false (Some freed) 3 = Undefined /\
    BitSet_get true (Some freed) 3
    = Trap "BitSet_get: Index out of bounds"%string.
Proof.
  apply (free_then_use true (mkBitSet (Some [5; 10]) 12) 3). lia.
Defined.

(** ** [NULL] handles *)

(** X8: The debug build stops every function that is handed a [NULL] BitSet
    in its own assertion, with the message that names the function; the
    fast build dereferences the pointer. *)
Theorem null_handle (alloc : Z -> bool) (garbage : nat -> Z)
    (p : BitSet_ptr) (n : Z) :
  (BitSet_get_byte_len true None
   = Trap "BitSet_get_byte_len: BitSet is NULL"%string /\
   BitSet_init true alloc None n = Trap "BitSet_init: BitSet is NULL"%string /\
   BitSet_set_all true None = Trap "BitSet_set_all: BitSet is NULL"%string /\
   BitSet_clear_all true None
   = Trap "BitSet_clear_all: BitSet is NULL"%string /\
   BitSet_set true None n = Trap "BitSet_set: BitSet is NULL"%string /\
   BitSet_clear true None n = Trap "BitSet_clear: BitSet is NULL"%string /\
   BitSet_get true None n = Trap "BitSet_get: BitSet is NULL"%string /\
   BitSet_flip true None n = Trap "BitSet_flip: BitSet is NULL"%string /\
   BitSet_free true None = Trap "BitSet_free: BitSet is NULL"%string /\
   BitSet_not true None = Trap "BitSet_not: BitSet is NULL"%string /\
   BitSet_print true None n = Trap "BitSet_print: BitSet is NULL"%string) /\
  (BitSet_copy_construct true alloc garbage None p
   = Trap "BitSet_copy_construct: BitSet is NULL"%string /\
   BitSet_copy_construct true alloc garbage p None
   = Trap "BitSet_copy_construct: BitSet is NULL"%string /\
   BitSet_or true None p = Trap "BitSet_or: BitSet is NULL"%string /\
   BitSet_or true p None = Trap "BitSet_or: BitSet is NULL"%string /\
   BitSet_and true None p = Trap "BitSet_and: BitSet is NULL"%string /\
   BitSet_and true p None = Trap "BitSet_and: BitSet is NULL"%string /\
   BitSet_xor true None p = Trap "BitSet_xor: BitSet is NULL"%string /\
   BitSet_xor true p None = Trap "BitSet_xor: BitSet is NULL"%string /\
   BitSet_equals true None p = Trap "BitSet_equals: BitSet is NULL"%string /\
   BitSet_equals true p None = Trap "BitSet_equals: BitSet is NULL"%string) /\
  (BitSet_get_byte_len false None = Undefined /\
   BitSet_init false alloc None n = Undefined /\
   BitSet_set_all false None = Undefined /\
   BitSet_clear_all false None = Undefined /\
   BitSet_set false None n = Undefined /\
   BitSet_clear false None n = Undefined /\
   BitSet_get false None n = Undefined /\
   BitSet_flip false None n = Undefined /\
   BitSet_free false None = Undefined /\
   BitSet_not false None = Undefined /\
   BitSet_print false None n = Undefined) /\
  (BitSet_copy_construct false alloc garbage None p = Undefined /\
   BitSet_copy_construct false alloc garbage p None = Undefined /\
   BitSet_or false None p = Undefined /\
   BitSet_or false p None = Undefined /\
   BitSet_and false None p = Undefined /\
   BitSet_and false p None = Undefined /\
   BitSet_xor false None p = Undefined /\
   BitSet_xor false p None = Undefined /\
   BitSet_equals false None p = Undefined /\
   BitSet_equals false p None = Undefined).
Proof.
  split_and!; try reflexivity; destruct p as [b |]; try reflexivity.
Qed.

(** ** Single-bit operations as changes of one bit *)

Lemma initialized_bits_ext bs l1 l2 :
  initialized (mkBitSet (Some l1) (bit_len bs)) ->
  initialized (mkBitSet (Some l2) (bit_len bs)) ->
  (forall p, 0 <= p -> bit_of l1 p = bit_of l2 p) ->
  l1 = l2.
Proof.
  intros (_ & l1' & [= <-] & Hlen1 & Hall1) (_ & l2' & [= <-] & Hlen2 & Hall2).
  simpl in *. intros Hbits.
  apply bits_ext; [lia | done | done |]. intros p Hp. apply Hbits. lia.
Qed.

Section BitEffect.

Variable debug : bool.
Variables (bs : BitSet) (l : list Z) (index : Z).
Hypothesis Hinit : initialized bs.
Hypothesis Hbits : bits bs = Some l.
Hypothesis Hindex : 0 <= index < bit_len bs.

Lemma set_effect :
  exists l',
    BitSet_set debug (Some bs) index = Ok (mkBitSet (Some l') (bit_len bs)) /\
    initialized (mkBitSet (Some l') (bit_len bs)) /\
    forall p, 0 <= p -> bit_of l' p = if p =? index then true else bit_of l p.
Proof.
  pose proof (initialized_index_byte _ _ _ Hinit Hbits Hindex) as Hbyte.
  pose proof (initialized_byte_at _ _ (index / 8) Hinit Hbits) as Hx.
  assert (Hk : 0 <= index mod 8 < 8) by (apply Z.mod_pos_bound; lia).
  eexists. split_and!.
  - by apply (BitSet_set_ok debug bs l).
  - apply initialized_insert; [done | done | apply to_u8_is_byte].
  - intros p Hp. apply bit_of_update; [| lia | done | done].
    intros j Hj. by apply testbit_set_byte.
Qed.

Lemma clear_effect :
  exists l',
    BitSet_clear debug (Some bs) index
    = Ok (mkBitSet (Some l') (bit_len bs)) /\
    initialized (mkBitSet (Some l') (bit_len bs)) /\
    forall p, 0 <= p -> bit_of l' p = if p =? index then false else bit_of l p.
Proof.
  pose proof (initialized_index_byte _ _ _ Hinit Hbits Hindex) as Hbyte.
  pose proof (initialized_byte_at _ _ (index / 8) Hinit Hbits) as Hx.
  assert (Hk : 0 <= index mod 8 < 8) by (apply Z.mod_pos_bound; lia).
  eexists. split_and!.
  - by apply (BitSet_clear_ok debug bs l).
  - apply initialized_insert; [done | done | apply to_u8_is_byte].
  - intros p Hp. apply bit_of_update; [| lia | done | done].
    intros j Hj. by apply testbit_clear_byte.
Qed.

Lemma flip_effect :
  exists l',
    BitSet_flip debug (Some bs) index
    = Ok (mkBitSet (Some l') (bit_len bs)) /\
    initialized (mkBitSet (Some l') (bit_len bs)) /\
    forall p, 0 <= p ->
      bit_of l' p = if p =? index then negb (bit_of l index) else bit_of l p.
Proof.
  pose proof (initialized_index_byte _ _ _ Hinit Hbits Hindex) as Hbyte.
  pose proof (initialized_byte_at _ _ (index / 8) Hinit Hbits) as Hx.
  assert (Hk : 0 <= index mod 8 < 8) by (apply Z.mod_pos_bound; lia).
  eexists. split_and!.
  - by apply (BitSet_flip_ok debug bs l).
  - apply initialized_insert; [done | done | apply to_u8_is_byte].
  - intros p Hp. apply bit_of_update; [| lia | done | done].
    intros j Hj. rewrite testbit_flip_byte by done.
    destruct (Z.eqb_spec (index mod 8) j) as [<- |]; reflexivity.
Qed.

Lemma get_effect :
  BitSet_get debug (Some bs) index = Ok (Z.b2z (bit_of l index)).
Proof.
  apply BitSet_get_ok; [done | done |].
  by apply (initialized_index_byte bs).
Qed.

End BitEffect.

(** X9: [flip] does what [set] does where [get] returns 0 and what [clear]
    does where it returns 1. *)
Theorem flip_is_set_or_clear (debug : bool) (bs : BitSet) (index : Z) :
  initialized bs -> 0 <= index < bit_len bs ->
  (BitSet_get debug (Some bs) index = Ok 0 /\
   BitSet_flip debug (Some bs) index = BitSet_set debug (Some bs) index) \/
  (BitSet_get debug (Some bs) index = Ok 1 /\
   BitSet_flip debug (Some bs) index = BitSet_clear debug (Some bs) index).
Proof.
  intros Hinit Hindex. pose proof Hinit as (_ & l & Hbits & _).
  destruct (set_effect debug bs l index Hinit Hbits Hindex)
    as (l1 & Hset & Hinit1 & Hbits1).
  destruct (clear_effect debug bs l index Hinit Hbits Hindex)
    as (l0 & Hclear & Hinit0 & Hbits0).
  destruct (flip_effect debug bs l index Hinit Hbits Hindex)
    as (lf & Hflip & Hinitf & Hbitsf).
  rewrite (get_effect debug bs l index Hinit Hbits Hindex).
  rewrite Hset, Hclear, Hflip.
  destruct (bit_of l index) eqn:Hbit; [right | left]; (split; [done |]);
    do 3 f_equal; apply (initialized_bits_ext bs); try done;
    intros p Hp; rewrite Hbitsf by done.
  - by rewrite Hbits0.
  - by rewrite Hbits1.
Qed.

Lemma flip_is_set_or_clear_witness :
  (BitSet_get true (Some (mkBitSet (Some [5; 10]) 12)) 9 = Ok 0 /\
   BitSet_flip true (Some (mkBitSet (Some [5; 10]) 12)) 9
   = BitSet_set true (Some (mkBitSet (Some [5; 10]) 12)) 9) \/
  (BitSet_get true (Some (mkBitSet (Some [5; 10]) 12)) 9 = Ok 1 /\
   BitSet_flip true (Some (mkBitSet (Some [5; 10]) 12)) 9
   = BitSet_clear true (Some (mkBitSet (Some [5; 10]) 12)) 9).
Proof.
  apply (flip_is_set_or_clear true (mkBitSet (Some [5; 10]) 12) 9);
    [| simpl; lia].
  concrete_initialized [5; 10].
Defined.

(** X10: The last of two writes to the same bit decides: [set] and [clear]
    after [set] or [clear] of the same index give what the later one gives
    alone. *)
Theorem last_write_wins (debug : bool) (bs : BitSet) (index : Z) :
  initialized bs -> 0 <= index < bit_len bs ->
  exists b1 b0,
    BitSet_set debug (Some bs) index = Ok b1 /\
    BitSet_clear debug (Some bs) index = Ok b0 /\
    BitSet_set debug (Some b1) index = Ok b1 /\
    BitSet_set debug (Some b0) index = Ok b1 /\
    BitSet_clear debug (Some b0) index = Ok b0 /\
    BitSet_clear debug (Some b1) index = Ok b0.
Proof.
  intros Hinit Hindex. pose proof Hinit as (_ & l & Hbits & _).
  destruct (set_effect debug bs l index Hinit Hbits Hindex)
    as (l1 & Hset & Hinit1 & Hbits1).
  destruct (clear_effect debug bs l index Hinit Hbits Hindex)
    as (l0 & Hclear & Hinit0 & Hbits0).
  exists (mkBitSet (Some l1) (bit_len bs)), (mkBitSet (Some l0) (bit_len bs)).
  split_and!; [done | done | | | |].
  - destruct (set_effect debug _ l1 index Hinit1 eq_refl Hindex)
      as (l' & -> & Hinit' & Hbits'). simpl in *.
    do 3 f_equal. apply (initialized_bits_ext bs); try done.
    intros p Hp. rewrite Hbits', Hbits1 by done. by destruct (p =? index).
  - destruct (set_effect debug _ l0 index Hinit0 eq_refl Hindex)
      as (l' & -> & Hinit' & Hbits'). simpl in *.
    do 3 f_equal. apply (initialized_bits_ext bs); try done.
    intros p Hp. rewrite Hbits', Hbits1, Hbits0 by done.
    by destruct (p =? index).
  - destruct (clear_effect debug _ l0 index Hinit0 eq_refl Hindex)
      as (l' & -> & Hinit' & Hbits'). simpl in *.
    do 3 f_equal. apply (initialized_bits_ext bs); try done.
    intros p Hp. rewrite Hbits', Hbits0 by done. by destruct (p =? index).
  - destruct (clear_effect debug _ l1 index Hinit1 eq_refl Hindex)
      as (l' & -> & Hinit' & Hbits'). simpl in *.
    do 3 f_equal. apply (initialized_bits_ext bs); try done.
    intros p Hp. rewrite Hbits', Hbits1, Hbits0 by done.
    by destruct (p =? index).
Qed.

Lemma last_write_wins_witness :
  exists b1 b0,
    BitSet_set false (Some (mkBitSet (Some [5; 10]) 12)) 9 = Ok b1 /\
    BitSet_clear false (Some (mkBitSet (Some [5; 10]) 12)) 9 = Ok b0 /\
    BitSet_set false (Some b1) 9 = Ok b1 /\
    BitSet_set false (Some b0) 9 = Ok b1 /\
    BitSet_clear false (Some b0) 9 = Ok b0 /\
    BitSet_clear false (Some b1) 9 = Ok b0.
Proof.
  apply (last_write_wins false (mkBitSet (Some [5; 10]) 12) 9);
    [| simpl; lia].
  concrete_initialized [5; 10].
Defined.

Lemma bit_writers_write debug f :
  In f (bit_writers debug) -> exists g, bit_write f g.
Proof.
  intros [<- | [<- | [<- | []]]].
  - exists (fun _ => true). intros bs l index Hinit Hbits Hindex.
    by apply set_effect.
  - exists (fun _ => false). intros bs l index Hinit Hbits Hindex.
    by apply clear_effect.
  - exists negb. intros bs l index Hinit Hbits Hindex.
    by apply flip_effect.
Qed.

(** X11: Any two of [set], [clear] and [flip] at different indices below
    [bit_len] can be done in either order: both orders return, with the
    same BitSet. *)
Theorem single_bit_writes_commute (debug : bool)
    (f1 f2 : BitSet_ptr -> Z -> result BitSet) (bs : BitSet) (i j : Z) :
  In f1 (bit_writers debug) -> In f2 (bit_writers debug) ->
  initialized bs -> 0 <= i < bit_len bs -> 0 <= j < bit_len bs -> i <> j ->
  exists b1 b2 b,
    f1 (Some bs) i = Ok b1 /\ f2 (Some b1) j = Ok b /\
    f2 (Some bs) j = Ok b2 /\ f1 (Some b2) i = Ok b.
Proof.
  intros [g1 H1]%bit_writers_write [g2 H2]%bit_writers_write Hinit Hi Hj Hne.
  pose proof Hinit as (_ & l & Hbits & _).
  destruct (H1 bs l i Hinit Hbits Hi) as (l1 & Hrun1 & Hinit1 & Hbits1).
  destruct (H2 bs l j Hinit Hbits Hj) as (l2 & Hrun2 & Hinit2 & Hbits2).
  destruct (H2 _ l1 j Hinit1 eq_refl Hj) as (l12 & Hrun12 & Hinit12 & Hbits12).
  destruct (H1 _ l2 i Hinit2 eq_refl Hi) as (l21 & Hrun21 & Hinit21 & Hbits21).
  simpl in *.
  exists (mkBitSet (Some l1) (bit_len bs)), (mkBitSet (Some l2) (bit_len bs)),
    (mkBitSet (Some l12) (bit_len bs)).
  split_and!; [done | done | done |].
  rewrite Hrun21. do 3 f_equal.
  apply (initialized_bits_ext bs); [done | done |].
  intros p Hp.
  rewrite Hbits21, Hbits12, !Hbits1, !Hbits2 by lia.
  destruct (Z.eqb_spec p i), (Z.eqb_spec p j), (Z.eqb_spec i j),
    (Z.eqb_spec j i); (done || lia).
Qed.

Lemma single_bit_writes_commute_witness :
  exists b1 b2 b,
    BitSet_set true (Some (mkBitSet (Some [5; 10]) 12)) 1 = Ok b1 /\
    BitSet_flip true (Some b1) 2 = Ok b /\
    BitSet_flip true (Some (mkBitSet (Some [5; 10]) 12)) 2 = Ok b2 /\
    BitSet_set true (Some b2) 1 = Ok b.
Proof.
  apply (single_bit_writes_commute true (BitSet_set true) (BitSet_flip true)
           (mkBitSet (Some [5; 10]) 12) 1 2);
    [simpl; auto | simpl; auto | | simpl; lia | simpl; lia | lia].
  concrete_initialized [5; 10].
Defined.

(** X12: After [init (n)] and [set (i)], [get (j)] returns 1 for [j = i] and 0
    for every other [j] below [n]. *)
Theorem init_then_set (debug : bool) (alloc : Z -> bool) (dest : BitSet)
    (n i j : Z) :
  0 <= n <= SIZE_MAX - 7 -> alloc ((n + 7) / 8) = true ->
  0 <= i < n -> 0 <= j < n ->
  exists bs bs',
    BitSet_init debug alloc (Some dest) n = Ok bs /\
    BitSet_set debug (Some bs) i = Ok bs' /\
    BitSet_get debug (Some bs') j = Ok (if j =? i then 1 else 0).
Proof.
  intros Hn Halloc Hi Hj.
  set (l := replicate (Z.to_nat ((n + 7) / 8)) 0).
  assert (Hinit : initialized (mkBitSet (Some l) n)).
  { apply initialized_replicate; [done |]. unfold is_byte. lia. }
  destruct (set_effect debug _ l i Hinit eq_refl Hi)
    as (l' & Hset & Hinit' & Hbits').
  eexists _, _. split_and!; [by apply BitSet_init_ok | exact Hset |].
  rewrite (get_effect debug _ l' j Hinit' eq_refl Hj).
  rewrite Hbits' by lia.
  destruct (Z.eqb_spec j i); [done |].
  unfold l. rewrite bit_of_replicate, Z.bits_0; [done | lia |].
  rewrite Z2Nat.id by (apply Z.div_pos; lia).
  apply index_byte_in_range. lia.
Qed.

Lemma init_then_set_witness :
  exists bs bs',
    BitSet_init true grant_all (Some blank) 100 = Ok bs /\
    BitSet_set true (Some bs) 3 = Ok bs' /\
    BitSet_get true (Some bs') 7 = Ok (if 7 =? 3 then 1 else 0).
Proof.
  apply (init_then_set true grant_all blank 100 3 7);
    [vm_compute; split; discriminate | reflexivity | lia | lia].
Defined.

(** ** Indices past [bit_len] in the fast build *)

(** X13: without assertions an index from [bit_len] up to the end of the
    last storage byte is not refused: [get] reads the padding bit, and
    [set], [clear] and [flip] write it, setting, clearing and inverting
    that bit of the storage and no other, so that [get] then returns 1,
    0, and 1 minus what it returned before.  From the end of the storage
    on, all four access memory outside the buffer. *)
Theorem fast_build_past_bit_len (bs : BitSet) (l : list Z) (index : Z) :
  initialized bs -> bits bs = Some l -> bit_len bs <= index ->
  (index < 8 * Z.of_nat (length l) ->
     BitSet_get false (Some bs) index = Ok (Z.b2z (bit_of l index)) /\
     exists l1 l0 lf,
       BitSet_set false (Some bs) index
       = Ok (mkBitSet (Some l1) (bit_len bs)) /\
       BitSet_clear false (Some bs) index
       = Ok (mkBitSet (Some l0) (bit_len bs)) /\
       BitSet_flip false (Some bs) index
       = Ok (mkBitSet (Some lf) (bit_len bs)) /\
       BitSet_get false (Some (mkBitSet (Some l1) (bit_len bs))) index
       = Ok 1 /\
       BitSet_get false (Some (mkBitSet (Some l0) (bit_len bs))) index
       = Ok 0 /\
       BitSet_get false (Some (mkBitSet (Some lf) (bit_len bs))) index
       = Ok (1 - Z.b2z (bit_of l index)) /\
       (length l1 = length l /\ length l0 = length l /\
        length lf = length l) /\
       forall p, 0 <= p ->
         bit_of l1 p = (if p =? index then true else bit_of l p) /\
         bit_of l0 p = (if p =? index then false else bit_of l p) /\
         bit_of lf p
         = (if p =? index then negb (bit_of l index) else bit_of l p)) /\
  (8 * Z.of_nat (length l) <= index ->
     BitSet_get false (Some bs) index = Undefined /\
     BitSet_set false (Some bs) index = Undefined /\
     BitSet_clear false (Some bs) index = Undefined /\
     BitSet_flip false (Some bs) index = Undefined).
Proof.
  intros Hinit Hbits Hindex. pose proof Hinit as [[Hn0 _] _].
  assert (Hk : 0 <= index mod 8 < 8) by (apply Z.mod_pos_bound; lia).
  assert (Hq : 0 <= index / 8) by (apply Z.div_pos; lia).
  split.
  - intros Hin.
    assert (Hbyte : index / 8 < Z.of_nat (length l))
      by (apply Z.div_lt_upper_bound; lia).
    pose proof (byte_present l (index / 8) (conj Hq Hbyte)) as Hx.
    pose proof (initialized_byte_at _ _ (index / 8) Hinit Hbits) as Hbx.
    assert (Hget : forall l', length l' = length l ->
              BitSet_get false (Some (mkBitSet (Some l') (bit_len bs))) index
              = Ok (Z.b2z (bit_of l' index))).
    { intros l' Hlen'. unfold BitSet_get, BITSET_ASSERT.
      cbn [bind deref bits bit_len].
      rewrite (load_Some l' (index / 8) (byte_at l' (index / 8)))
        by (done || apply byte_present; lia).
      cbn [bind]. by rewrite shift_and_one by lia. }
    set (x := byte_at l (index / 8)) in *.
    set (n := Z.to_nat (index / 8)).
    set (l1 := <[n := to_u8 (Z.lor x (Z.shiftl 1 (index mod 8)))]> l).
    set (l0 := <[n := to_u8 (Z.land x (Z.lnot (Z.shiftl 1 (index mod 8))))]> l).
    set (lf := <[n := to_u8 (Z.lxor x (Z.shiftl 1 (index mod 8)))]> l).
    assert (Hbits1 : forall p, 0 <= p ->
              bit_of l1 p = if p =? index then true else bit_of l p).
    { intros p Hp. apply bit_of_update; [| lia | done | done].
      intros j Hj. by apply testbit_set_byte. }
    assert (Hbits0 : forall p, 0 <= p ->
              bit_of l0 p = if p =? index then false else bit_of l p).
    { intros p Hp. apply bit_of_update; [| lia | done | done].
      intros j Hj. by apply testbit_clear_byte. }
    assert (Hbitsf : forall p, 0 <= p ->
              bit_of lf p = if p =? index then negb (bit_of l index)
                            else bit_of l p).
    { intros p Hp. apply bit_of_update; [| lia | done | done].
      intros j Hj. rewrite testbit_flip_byte by done.
      destruct (Z.eqb_spec (index mod 8) j) as [<- |]; reflexivity. }
    split.
    { rewrite <- (BitSet_eta bs), Hbits. by apply Hget. }
    exists l1, l0, lf. split_and!.
    + unfold BitSet_set. simpl. rewrite Hbits.
      by rewrite (update_byte_Some _ l (index / 8) _ Hq Hx).
    + unfold BitSet_clear. simpl. rewrite Hbits.
      by rewrite (update_byte_Some _ l (index / 8) _ Hq Hx).
    + unfold BitSet_flip. simpl. rewrite Hbits.
      by rewrite (update_byte_Some _ l (index / 8) _ Hq Hx).
    + rewrite Hget by apply length_insert.
      rewrite Hbits1 by lia. by rewrite Z.eqb_refl.
    + rewrite Hget by apply length_insert.
      rewrite Hbits0 by lia. by rewrite Z.eqb_refl.
    + rewrite Hget by apply length_insert.
      rewrite Hbitsf, Z.eqb_refl by lia. by destruct (bit_of l index).
    + apply length_insert.
    + apply length_insert.
    + apply length_insert.
    + intros p Hp. auto.
  - intros Hout.
    assert (Hbyte : Z.of_nat (length l) <= index / 8)
      by (apply Z.div_le_lower_bound; lia).
    assert (Hload : load (Some l) (index / 8) = Undefined).
    { unfold load. destruct (Z.ltb_spec (index / 8) 0); [done |].
      rewrite lookup_ge_None_2; [done | lia]. }
    unfold BitSet_get, BitSet_set, BitSet_clear, BitSet_flip, update_byte.
    simpl. rewrite Hbits, Hload. done.
Qed.

Lemma fast_build_past_bit_len_witness :
  BitSet_get false (Some (mkBitSet (Some [5; 10]) 12)) 13
  = Ok (Z.b2z (bit_of [5; 10] 13)) /\
  exists l1 l0 lf,
    BitSet_set false (Some (mkBitSet (Some [5; 10]) 12)) 13
    = Ok (mkBitSet (Some l1) 12) /\
    BitSet_clear false (Some (mkBitSet (Some [5; 10]) 12)) 13
    = Ok (mkBitSet (Some l0) 12) /\
    BitSet_flip false (Some (mkBitSet (Some [5; 10]) 12)) 13
    = Ok (mkBitSet (Some lf) 12) /\
    BitSet_get false (Some (mkBitSet (Some l1) 12)) 13 = Ok 1 /\
    BitSet_get false (Some (mkBitSet (Some l0) 12)) 13 = Ok 0 /\
    BitSet_get false (Some (mkBitSet (Some lf) 12)) 13
    = Ok (1 - Z.b2z (bit_of [5; 10] 13)) /\
    (length l1 = 2%nat /\ length l0 = 2%nat /\ length lf = 2%nat) /\
    forall p, 0 <= p ->
      bit_of l1 p = (if p =? 13 then true else bit_of [5; 10] p) /\
      bit_of l0 p = (if p =? 13 then false else bit_of [5; 10] p) /\
      bit_of lf p
      = (if p =? 13 then negb (bit_of [5; 10] 13) else bit_of [5; 10] p).
Proof.
  apply (fast_build_past_bit_len (mkBitSet (Some [5; 10]) 12) [5; 10] 13);
    [| reflexivity | simpl; lia | simpl; lia].
  concrete_initialized [5; 10].
Defined.

Example flip_padding_run :
  BitSet_flip false (Some (mkBitSet (Some [5; 10]) 12)) 13
  = Ok (mkBitSet (Some [5; 42]) 12)
  /\ BitSet_get false (Some (mkBitSet (Some [5; 42]) 12)) 13 = Ok 1
  /\ BitSet_get false (Some (mkBitSet (Some [5; 10]) 12)) 13 = Ok 0.
Proof. by vm_compute. Qed.

(** ** Combining operations bit by bit *)

Lemma combined_bits op bop count (ld ls l' : list Z) :
  combined op count ld ls l' ->
  0 <= count <= Z.of_nat (length ld) ->
  (forall x y k, 0 <= k ->
     Z.testbit (op x y) k = bop (Z.testbit x k) (Z.testbit y k)) ->
  forall p, 0 <= p ->
    bit_of l' p = if p <? 8 * count
                  then bop (bit_of ld p) (bit_of ls p) else bit_of ld p.
Proof.
  intros [Hlen Hl'] Hcount Hop p Hp. unfold bit_of.
  assert (Hq : 0 <= p / 8) by (apply Z.div_pos; lia).
  assert (Hk : 0 <= p mod 8) by (apply Z.mod_pos_bound; lia).
  assert (Hlt : (p <? 8 * count) = (p / 8 <? count)).
  { destruct (Z.ltb_spec p (8 * count)), (Z.ltb_spec (p / 8) count);
      try done.
    - assert (p / 8 < count) by (apply Z.div_lt_upper_bound; lia). lia.
    - assert (count <= p / 8) by (apply Z.div_le_lower_bound; lia). lia. }
  rewrite Hlt.
  destruct (Z.ltb_spec (p / 8) (Z.of_nat (length ld))) as [Hin | Hout].
  - pose proof (byte_present ld (p / 8) (conj Hq Hin)) as Hx.
    specialize (Hl' _ _ Hx). rewrite Z2Nat.id in Hl' by done.
    rewrite (byte_at_Some l' (p / 8) _ Hl').
    destruct (p / 8 <? count); [apply Hop; lia | done].
  - rewrite (byte_at_out l') by lia. rewrite (byte_at_out ld) by lia.
    destruct (Z.ltb_spec (p / 8) count); [lia | done].
Qed.

Lemma combined_bytes op count (ld ls l' : list Z) :
  combined op count ld ls l' ->
  (forall x y, is_byte x -> is_byte y -> is_byte (op x y)) ->
  Forall is_byte ld -> Forall is_byte ls -> Forall is_byte l'.
Proof.
  intros [Hlen Hl'] Hop Hd Hs. apply Forall_lookup_2. intros j z Hz.
  destruct (lookup_lt_is_Some_2 ld j) as [x Hx].
  { rewrite <- Hlen. by eapply lookup_lt_Some. }
  rewrite (Hl' _ _ Hx) in Hz. injection Hz as <-.
  pose proof (Forall_lookup_1 _ _ _ _ Hd Hx) as Hbx.
  destruct (Z.of_nat j <? count); [| done].
  apply Hop; [done |]. unfold byte_at.
  destruct (ls !! Z.to_nat (Z.of_nat j)) as [y |] eqn:Hy; simpl.
  - exact (Forall_lookup_1 _ _ _ _ Hs Hy).
  - unfold is_byte. lia.
Qed.

Section Combiner.

Variable debug : bool.
Variables (dest src : BitSet) (ld ls : list Z).
Hypothesis Hd : initialized dest.
Hypothesis Hs : initialized src.
Hypothesis Hld : bits dest = Some ld.
Hypothesis Hls : bits src = Some ls.

(** What the three functions share: the byte count and the loop. *)
Lemma combine_run (op : Z -> Z -> Z) (bop : bool -> bool -> bool) :
  (forall x y, is_byte x -> is_byte y -> to_u8 (op x y) = op x y) ->
  (forall x y k, 0 <= k ->
     Z.testbit (op x y) k = bop (Z.testbit x k) (Z.testbit y k)) ->
  exists l',
    BitSet_get_byte_len debug
      (if bit_len dest <? bit_len src then Some dest else Some src)
    = Ok (combine_count dest src) /\
    combine_bytes op (combine_count dest src) (Some ld) (Some ls)
    = Ok (Some l') /\
    initialized (mkBitSet (Some l') (bit_len dest)) /\
    forall p, 0 <= p ->
      bit_of l' p = if p <? 8 * combine_count dest src
                    then bop (bit_of ld p) (bit_of ls p) else bit_of ld p.
Proof.
  intros Hbyte Hbit.
  destruct (shorter_byte_len debug dest src Hd Hs) as (Hcount & Hcd & Hcs).
  fold (combine_count dest src) in Hcount, Hcd, Hcs.
  destruct Hd as (Hnd & ld' & Hld' & Hlend & Hbd).
  destruct Hs as (Hns & ls' & Hls' & Hlens & Hbs).
  assert (ld' = ld) as -> by congruence.
  assert (ls' = ls) as -> by congruence.
  destruct (combine_bytes_ok op ls (combine_count dest src) ld)
    as (l' & Hrun & Hcomb); [lia | lia | done | done | done |].
  exists l'. split_and!; [done | done | |].
  - split; [done |]. exists l'. simpl. split_and!; [done | |].
    + destruct Hcomb as [-> _]. done.
    + apply (combined_bytes op (combine_count dest src) ld ls);
        [done | | done | done].
      intros x y Hx Hy. rewrite <- Hbyte by done. apply to_u8_is_byte.
  - apply (combined_bits op bop (combine_count dest src) ld ls);
      [done | lia | done].
Qed.

Lemma or_combines :
  exists l',
    BitSet_or debug (Some dest) (Some src)
    = Ok (mkBitSet (Some l') (bit_len dest)) /\
    initialized (mkBitSet (Some l') (bit_len dest)) /\
    forall p, 0 <= p ->
      bit_of l' p = if p <? 8 * combine_count dest src
                    then bit_of ld p || bit_of ls p else bit_of ld p.
Proof.
  destruct (combine_run Z.lor orb lor_is_byte)
    as (l' & Hcount & Hrun & Hinit & Hbits);
    [intros x y k Hk; apply Z.lor_spec |].
  exists l'. split_and!; [| done | done].
  unfold BitSet_or, shorter. simpl. rewrite BITSET_ASSERT_true. simpl.
  rewrite Hcount. simpl. by rewrite Hld, Hls, Hrun.
Qed.

Lemma and_combines :
  exists l',
    BitSet_and debug (Some dest) (Some src)
    = Ok (mkBitSet (Some l') (bit_len dest)) /\
    initialized (mkBitSet (Some l') (bit_len dest)) /\
    forall p, 0 <= p ->
      bit_of l' p = if p <? 8 * combine_count dest src
                    then bit_of ld p && bit_of ls p else bit_of ld p.
Proof.
  destruct (combine_run Z.land andb land_is_byte)
    as (l' & Hcount & Hrun & Hinit & Hbits);
    [intros x y k Hk; apply Z.land_spec |].
  exists l'. split_and!; [| done | done].
  unfold BitSet_and, shorter. simpl. rewrite BITSET_ASSERT_true. simpl.
  rewrite Hcount. simpl. by rewrite Hld, Hls, Hrun.
Qed.

Lemma xor_combines :
  exists l',
    BitSet_xor debug (Some dest) (Some src)
    = Ok (mkBitSet (Some l') (bit_len dest)) /\
    initialized (mkBitSet (Some l') (bit_len dest)) /\
    forall p, 0 <= p ->
      bit_of l' p = if p <? 8 * combine_count dest src
                    then xorb (bit_of ld p) (bit_of ls p) else bit_of ld p.
Proof.
  destruct (combine_run Z.lxor xorb lxor_is_byte)
    as (l' & Hcount & Hrun & Hinit & Hbits);
    [intros x y k Hk; apply Z.lxor_spec |].
  exists l'. split_and!; [| done | done].
  unfold BitSet_xor, shorter. simpl. rewrite BITSET_ASSERT_true. simpl.
  rewrite Hcount. simpl. by rewrite Hld, Hls, Hrun.
Qed.

End Combiner.

Lemma combiners_combine debug f bop :
  In (f, bop) (combiners debug) -> bit_combiner f bop.
Proof.
  intros [[= <- <-] | [[= <- <-] | [[= <- <-] | []]]];
    intros dest src ld ls Hd Hs Hld Hls.
  - by apply or_combines.
  - by apply and_combines.
  - by apply xor_combines.
Qed.

Lemma min_below_combine_count dest src :
  Z.min (bit_len dest) (bit_len src) <= 8 * combine_count dest src.
Proof.
  unfold combine_count.
  pose proof (ceil8_div (Z.min (bit_len dest) (bit_len src))) as [_ H]. done.
Qed.

Lemma b2z_eqb_1 (b : bool) : (Z.b2z b =? 1) = b.
Proof. by destruct b. Qed.

(** X14: [or], [and] and [xor] act bit by bit on what [get] returns: at an
    index below both bit lengths, [get] on the result is the operation on
    the two values [get] returned before; from byte
    [ceil(min(bit lengths) / 8)] on, [get] on the result is what it was on
    [dest]. *)
Theorem combine_get (debug : bool)
    (f : BitSet_ptr -> BitSet_ptr -> result BitSet)
    (bop : bool -> bool -> bool) (dest src : BitSet) (index : Z) :
  In (f, bop) (combiners debug) ->
  initialized dest -> initialized src -> 0 <= index < bit_len dest ->
  exists r vd,
    f (Some dest) (Some src) = Ok r /\ bit_len r = bit_len dest /\
    BitSet_get debug (Some dest) index = Ok vd /\
    (index < bit_len src ->
       exists vs,
         BitSet_get debug (Some src) index = Ok vs /\
         BitSet_get debug (Some r) index
         = Ok (Z.b2z (bop (vd =? 1) (vs =? 1)))) /\
    (8 * combine_count dest src <= index ->
       BitSet_get debug (Some r) index = Ok vd).
Proof.
  intros Hf%combiners_combine Hd Hs Hindex.
  pose proof Hd as (_ & ld & Hld & _). pose proof Hs as (_ & ls & Hls & _).
  destruct (Hf dest src ld ls Hd Hs Hld Hls) as (l' & Hrun & Hinit & Hbits).
  exists (mkBitSet (Some l') (bit_len dest)), (Z.b2z (bit_of ld index)).
  split_and!; [done | done | by apply get_effect | |].
  - intros Hsrc. exists (Z.b2z (bit_of ls index)).
    split; [apply get_effect; (done || lia) |].
    rewrite (get_effect debug _ l' index Hinit eq_refl Hindex).
    rewrite Hbits, !b2z_eqb_1 by lia.
    pose proof (min_below_combine_count dest src).
    destruct (Z.ltb_spec index (8 * combine_count dest src)); [done | lia].
  - intros Hout.
    rewrite (get_effect debug _ l' index Hinit eq_refl Hindex).
    rewrite Hbits by lia.
    destruct (Z.ltb_spec index (8 * combine_count dest src)); [lia | done].
Qed.

Lemma combine_get_witness :
  exists r vd,
    BitSet_xor true (Some (mkBitSet (Some [12; 240]) 16))
      (Some (mkBitSet (Some [10]) 8)) = Ok r /\
    bit_len r = 16 /\
    BitSet_get true (Some (mkBitSet (Some [12; 240]) 16)) 2 = Ok vd /\
    (2 < 8 ->
       exists vs,
         BitSet_get true (Some (mkBitSet (Some [10]) 8)) 2 = Ok vs /\
         BitSet_get true (Some r) 2 = Ok (Z.b2z (xorb (vd =? 1) (vs =? 1)))) /\
    (8 * combine_count (mkBitSet (Some [12; 240]) 16)
           (mkBitSet (Some [10]) 8) <= 2 ->
       BitSet_get true (Some r) 2 = Ok vd).
Proof.
  apply (combine_get true (BitSet_xor true) xorb
           (mkBitSet (Some [12; 240]) 16) (mkBitSet (Some [10]) 8) 2);
    [simpl; auto | | | simpl; lia].
  - concrete_initialized [12; 240].
  - concrete_initialized [10].
Defined.

(** X15: When [src] is the shorter operand and its bit length is not a
    multiple of 8, the bits of [dest] between [bit_len src] and the next
    byte boundary are combined with the padding bits of [src]'s last
    byte. *)
Theorem combine_reads_padding (debug : bool)
    (f : BitSet_ptr -> BitSet_ptr -> result BitSet)
    (bop : bool -> bool -> bool) (dest src : BitSet) (ls : list Z)
    (index : Z) :
  In (f, bop) (combiners debug) ->
  initialized dest -> initialized src -> bits src = Some ls ->
  bit_len src <= index < 8 * combine_count dest src ->
  index < bit_len dest ->
  exists r vd,
    f (Some dest) (Some src) = Ok r /\
    BitSet_get debug (Some dest) index = Ok vd /\
    BitSet_get debug (Some r) index
    = Ok (Z.b2z (bop (vd =? 1) (bit_of ls index))).
Proof.
  intros Hf%combiners_combine Hd Hs Hls Hindex Hdest.
  pose proof Hd as (_ & ld & Hld & _). pose proof Hs as [[Hs0 _] _].
  destruct (Hf dest src ld ls Hd Hs Hld Hls) as (l' & Hrun & Hinit & Hbits).
  exists (mkBitSet (Some l') (bit_len dest)), (Z.b2z (bit_of ld index)).
  split_and!; [done | apply get_effect; (done || lia) |].
  rewrite (get_effect debug _ l' index Hinit eq_refl) by (simpl; lia).
  rewrite Hbits, b2z_eqb_1 by lia.
  destruct (Z.ltb_spec index (8 * combine_count dest src)); [done | lia].
Qed.

(** A 16-bit BitSet of zeros, or-ed with a 4-bit BitSet whose four bits
    are 0 and whose padding is set (as [set_all] then four [clear]s leave
    it), reads 1 at index 5. *)
Lemma combine_reads_padding_witness :
  exists r vd,
    BitSet_or false (Some (mkBitSet (Some [0; 0]) 16))
      (Some (mkBitSet (Some [240]) 4)) = Ok r /\
    BitSet_get false (Some (mkBitSet (Some [0; 0]) 16)) 5 = Ok vd /\
    BitSet_get false (Some r) 5
    = Ok (Z.b2z ((vd =? 1) || bit_of [240] 5)).
Proof.
  apply (combine_reads_padding false (BitSet_or false) orb
           (mkBitSet (Some [0; 0]) 16) (mkBitSet (Some [240]) 4) [240] 5);
    [simpl; auto | | | reflexivity | vm_compute; split; congruence
     | simpl; lia].
  - concrete_initialized [0; 0].
  - concrete_initialized [240].
Defined.

Example or_reads_padding_run :
  BitSet_or false (Some (mkBitSet (Some [0; 0]) 16))
    (Some (mkBitSet (Some [240]) 4)) = Ok (mkBitSet (Some [240; 0]) 16)
  /\ BitSet_get false (Some (mkBitSet (Some [240; 0]) 16)) 5 = Ok 1.
Proof. split; reflexivity. Qed.

(** X16: Combining with the same [src] a second time: [or] and [and] change
    nothing more, and [xor] gives [dest] back, also when the bit lengths
    differ. *)
Theorem combine_again (debug : bool) (dest src : BitSet) :
  initialized dest -> initialized src ->
  exists r_or r_and r_xor,
    BitSet_or debug (Some dest) (Some src) = Ok r_or /\
    BitSet_or debug (Some r_or) (Some src) = Ok r_or /\
    BitSet_and debug (Some dest) (Some src) = Ok r_and /\
    BitSet_and debug (Some r_and) (Some src) = Ok r_and /\
    BitSet_xor debug (Some dest) (Some src) = Ok r_xor /\
    BitSet_xor debug (Some r_xor) (Some src) = Ok dest.
Proof.
  intros Hd Hs.
  pose proof Hd as (_ & ld & Hld & _). pose proof Hs as (_ & ls & Hls & _).
  destruct (or_combines debug dest src ld ls Hd Hs Hld Hls)
    as (l1 & Hor & Hi1 & Hb1).
  destruct (and_combines debug dest src ld ls Hd Hs Hld Hls)
    as (l2 & Hand & Hi2 & Hb2).
  destruct (xor_combines debug dest src ld ls Hd Hs Hld Hls)
    as (l3 & Hxor & Hi3 & Hb3).
  destruct (or_combines debug _ src l1 ls Hi1 Hs eq_refl Hls)
    as (l1' & Hor' & Hi1' & Hb1').
  destruct (and_combines debug _ src l2 ls Hi2 Hs eq_refl Hls)
    as (l2' & Hand' & Hi2' & Hb2').
  destruct (xor_combines debug _ src l3 ls Hi3 Hs eq_refl Hls)
    as (l3' & Hxor' & Hi3' & Hb3').
  unfold combine_count in *. simpl in *.
  eexists _, _, _. split_and!; [exact Hor | | exact Hand | | exact Hxor |].
  - rewrite Hor'. do 3 f_equal. apply (initialized_bits_ext dest); try done.
    intros p Hp. rewrite Hb1', Hb1 by done.
    destruct (p <? _); [| done]. by destruct (bit_of ld p), (bit_of ls p).
  - rewrite Hand'. do 3 f_equal. apply (initialized_bits_ext dest); try done.
    intros p Hp. rewrite Hb2', Hb2 by done.
    destruct (p <? _); [| done]. by destruct (bit_of ld p), (bit_of ls p).
  - rewrite Hxor'. rewrite <- (BitSet_eta dest) at 2. rewrite Hld.
    do 3 f_equal. apply (initialized_bits_ext dest); try done.
    + by rewrite <- Hld, BitSet_eta.
    + intros p Hp. rewrite Hb3', Hb3 by done.
      destruct (p <? _); [| done]. by destruct (bit_of ld p), (bit_of ls p).
Qed.

Lemma combine_again_witness :
  exists r_or r_and r_xor,
    let dest := mkBitSet (Some [12; 240]) 16 in
    let src := mkBitSet (Some [10]) 8 in
    BitSet_or true (Some dest) (Some src) = Ok r_or /\
    BitSet_or true (Some r_or) (Some src) = Ok r_or /\
    BitSet_and true (Some dest) (Some src) = Ok r_and /\
    BitSet_and true (Some r_and) (Some src) = Ok r_and /\
    BitSet_xor true (Some dest) (Some src) = Ok r_xor /\
    BitSet_xor true (Some r_xor) (Some src) = Ok dest.
Proof.
  apply (combine_again true (mkBitSet (Some [12; 240]) 16)
           (mkBitSet (Some [10]) 8)).
  - concrete_initialized [12; 240].
  - concrete_initialized [10].
Defined.

(** X17: A BitSet combined with itself: [or] and [and] leave it as it is, and
    [xor] leaves what [clear_all] leaves. *)
Theorem combine_with_itself (debug : bool) (bs : BitSet) :
  initialized bs ->
  BitSet_or debug (Some bs) (Some bs) = Ok bs /\
  BitSet_and debug (Some bs) (Some bs) = Ok bs /\
  BitSet_xor debug (Some bs) (Some bs) = BitSet_clear_all debug (Some bs).
Proof.
  intros Hinit. pose proof Hinit as (Hn & l & Hbits & Hlen & _).
  destruct bs as [q n]. simpl in Hbits, Hlen, Hn. subst q.
  destruct (or_combines debug _ _ l l Hinit Hinit eq_refl eq_refl)
    as (l1 & -> & Hi1 & Hb1).
  destruct (and_combines debug _ _ l l Hinit Hinit eq_refl eq_refl)
    as (l2 & -> & Hi2 & Hb2).
  destruct (xor_combines debug _ _ l l Hinit Hinit eq_refl eq_refl)
    as (l3 & -> & Hi3 & Hb3).
  rewrite BitSet_clear_all_ok by done. simpl in *.
  split_and!; do 3 f_equal;
    apply (initialized_bits_ext (mkBitSet (Some l) n)); try done.
  - intros p Hp. rewrite Hb1 by done.
    destruct (p <? _); [| done]. by destruct (bit_of l p).
  - intros p Hp. rewrite Hb2 by done.
    destruct (p <? _); [| done]. by destruct (bit_of l p).
  - apply initialized_replicate; [done |]. unfold is_byte. lia.
  - intros p Hp. rewrite Hb3 by done.
    unfold combine_count. simpl. rewrite Z.min_id, <- Hlen.
    destruct (Z.ltb_spec p (8 * Z.of_nat (length l))) as [Hin | Hout].
    + rewrite bit_of_replicate, Z.bits_0; [by destruct (bit_of l p) | lia |].
      rewrite Nat2Z.id. apply Z.div_lt_upper_bound; lia.
    + rewrite Nat2Z.id, !bit_of_out; [done | | done].
      by rewrite length_replicate.
Qed.

Lemma combine_with_itself_witness :
  let bs := mkBitSet (Some [5; 10]) 12 in
  BitSet_or true (Some bs) (Some bs) = Ok bs /\
  BitSet_and true (Some bs) (Some bs) = Ok bs /\
  BitSet_xor true (Some bs) (Some bs) = BitSet_clear_all true (Some bs).
Proof.
  apply (combine_with_itself true (mkBitSet (Some [5; 10]) 12)).
  concrete_initialized [5; 10].
Defined.

(** X18: For operands of the same bit length [or], [and] and [xor] do not
    depend on which one is [dest]: both orders return the same BitSet. *)
Theorem combine_commutes (debug : bool)
    (f : BitSet_ptr -> BitSet_ptr -> result BitSet)
    (bop : bool -> bool -> bool) (a b : BitSet) :
  In (f, bop) (combiners debug) ->
  initialized a -> initialized b -> bit_len a = bit_len b ->
  exists r, f (Some a) (Some b) = Ok r /\ f (Some b) (Some a) = Ok r.
Proof.
  intros Hin Ha Hb Hlen.
  assert (Hcomm : forall x y, bop x y = bop y x).
  { destruct Hin as [[= <- <-] | [[= <- <-] | [[= <- <-] | []]]];
      by intros [] []. }
  apply combiners_combine in Hin as Hf.
  pose proof Ha as (_ & la & Hla & _). pose proof Hb as (_ & lb & Hlb & _).
  destruct (Hf a b la lb Ha Hb Hla Hlb) as (l1 & Hr1 & Hi1 & Hb1).
  destruct (Hf b a lb la Hb Ha Hlb Hla) as (l2 & Hr2 & Hi2 & Hb2).
  eexists. split; [exact Hr1 |]. rewrite Hr2, <- Hlen. do 3 f_equal.
  rewrite <- Hlen in Hi2.
  apply (initialized_bits_ext a); try done.
  intros p Hp. rewrite Hb1, Hb2 by done.
  unfold combine_count. rewrite <- Hlen, Z.min_id.
  destruct (Z.ltb_spec p (8 * ((bit_len a + 7) / 8))) as [Hin' | Hout].
  - apply Hcomm.
  - destruct Ha as (_ & la' & Hla' & Hlena & _).
    destruct Hb as (_ & lb' & Hlb' & Hlenb & _).
    assert (la' = la) as -> by congruence.
    assert (lb' = lb) as -> by congruence.
    rewrite <- Hlen in Hlenb.
    rewrite (bit_of_out la), (bit_of_out lb); [done | lia | lia].
Qed.

Lemma combine_commutes_witness :
  exists r,
    BitSet_and true (Some (mkBitSet (Some [5; 10]) 12))
      (Some (mkBitSet (Some [7; 2]) 12)) = Ok r /\
    BitSet_and true (Some (mkBitSet (Some [7; 2]) 12))
      (Some (mkBitSet (Some [5; 10]) 12)) = Ok r.
Proof.
  apply (combine_commutes true (BitSet_and true) andb
           (mkBitSet (Some [5; 10]) 12) (mkBitSet (Some [7; 2]) 12));
    [simpl; auto | | | reflexivity].
  - concrete_initialized [5; 10].
  - concrete_initialized [7; 2].
Defined.

Lemma not_effect debug bs l :
  initialized bs -> bits bs = Some l ->
  exists l',
    BitSet_not debug (Some bs) = Ok (mkBitSet (Some l') (bit_len bs)) /\
    initialized (mkBitSet (Some l') (bit_len bs)) /\
    forall p, 0 <= p ->
      bit_of l' p = if p <? 8 * ((bit_len bs + 7) / 8)
                    then negb (bit_of l p) else bit_of l p.
Proof.
  intros Hinit Hbits. exists (not_byte <$> l). split_and!.
  - by apply BitSet_not_ok.
  - by apply initialized_fmap_not.
  - intros p Hp. destruct Hinit as (_ & l' & Hl' & Hlen & _).
    assert (l' = l) as -> by congruence. rewrite <- Hlen.
    destruct (Z.ltb_spec p (8 * Z.of_nat (length l))).
    + apply bit_of_fmap_not. lia.
    + rewrite !bit_of_out; [done | done | by rewrite length_fmap].
Qed.

(** X19: De Morgan's laws for operands of the same bit length: the complement
    of [or] is the [and] of the complements, and the complement of [and]
    is the [or] of the complements, storage byte for storage byte. *)
Theorem de_morgan (debug : bool) (a b : BitSet) :
  initialized a -> initialized b -> bit_len a = bit_len b ->
  exists r_or r_and na nb n_or n_and,
    BitSet_not debug (Some a) = Ok na /\
    BitSet_not debug (Some b) = Ok nb /\
    BitSet_or debug (Some a) (Some b) = Ok r_or /\
    BitSet_not debug (Some r_or) = Ok n_or /\
    BitSet_and debug (Some na) (Some nb) = Ok n_or /\
    BitSet_and debug (Some a) (Some b) = Ok r_and /\
    BitSet_not debug (Some r_and) = Ok n_and /\
    BitSet_or debug (Some na) (Some nb) = Ok n_and.
Proof.
  intros Ha Hb Hlen.
  pose proof Ha as (_ & la & Hla & _). pose proof Hb as (_ & lb & Hlb & _).
  destruct (not_effect debug a la Ha Hla) as (lna & Hna & Hina & Hbna).
  destruct (not_effect debug b lb Hb Hlb) as (lnb & Hnb & Hinb & Hbnb).
  destruct (or_combines debug a b la lb Ha Hb Hla Hlb)
    as (lo & Hor & Hio & Hbo).
  destruct (and_combines debug a b la lb Ha Hb Hla Hlb)
    as (lA & Hand & HiA & HbA).
  destruct (not_effect debug _ lo Hio eq_refl) as (lno & Hno & Hino & Hbno).
  destruct (not_effect debug _ lA HiA eq_refl) as (lnA & HnA & HinA & HbnA).
  destruct (and_combines debug _ _ lna lnb Hina Hinb eq_refl eq_refl)
    as (l1 & Hr1 & Hi1 & Hb1).
  destruct (or_combines debug _ _ lna lnb Hina Hinb eq_refl eq_refl)
    as (l2 & Hr2 & Hi2 & Hb2).
  unfold combine_count in *. simpl in *.
  rewrite <- Hlen, Z.min_id in *.
  eexists _, _, _, _, _, _.
  split_and!; [exact Hna | exact Hnb | exact Hor | exact Hno |
               | exact Hand | exact HnA |].
  - rewrite Hr1. do 3 f_equal. apply (initialized_bits_ext a); try done.
    intros p Hp. rewrite Hb1, Hbno, Hbna, Hbnb, Hbo by done.
    destruct (p <? _); [| done]. by destruct (bit_of la p), (bit_of lb p).
  - rewrite Hr2. do 3 f_equal. apply (initialized_bits_ext a); try done.
    intros p Hp. rewrite Hb2, HbnA, Hbna, Hbnb, HbA by done.
    destruct (p <? _); [| done]. by destruct (bit_of la p), (bit_of lb p).
Qed.

Lemma de_morgan_witness :
  exists r_or r_and na nb n_or n_and,
    let a := mkBitSet (Some [5; 10]) 12 in
    let b := mkBitSet (Some [7; 2]) 12 in
    BitSet_not true (Some a) = Ok na /\
    BitSet_not true (Some b) = Ok nb /\
    BitSet_or true (Some a) (Some b) = Ok r_or /\
    BitSet_not true (Some r_or) = Ok n_or /\
    BitSet_and true (Some na) (Some nb) = Ok n_or /\
    BitSet_and true (Some a) (Some b) = Ok r_and /\
    BitSet_not true (Some r_and) = Ok n_and /\
    BitSet_or true (Some na) (Some nb) = Ok n_and.
Proof.
  apply (de_morgan true (mkBitSet (Some [5; 10]) 12)
           (mkBitSet (Some [7; 2]) 12)); [| | reflexivity].
  - concrete_initialized [5; 10].
  - concrete_initialized [7; 2].
Defined.

(** ** The invariant *)

(** X20: Every operation that writes to an initialized BitSet returns an
    initialized BitSet of the same bit length: the storage keeps its
    [ceil(bit_len / 8)] bytes.  This holds of [set_all], [clear_all], [not],
    [or], [and] and [xor] on every initialized BitSet, the one of 0 bits
    included, and of [set], [clear] and [flip] at every index below the
    bit length. *)
Theorem operations_keep_initialized (debug : bool) (bs other : BitSet) :
  initialized bs -> initialized other ->
  Forall (fun r => exists bs', r = Ok bs' /\ initialized bs' /\
                               bit_len bs' = bit_len bs)
    [BitSet_set_all debug (Some bs);
     BitSet_clear_all debug (Some bs);
     BitSet_not debug (Some bs);
     BitSet_or debug (Some bs) (Some other);
     BitSet_and debug (Some bs) (Some other);
     BitSet_xor debug (Some bs) (Some other)] /\
  forall index, 0 <= index < bit_len bs ->
    Forall (fun r => exists bs', r = Ok bs' /\ initialized bs' /\
                                 bit_len bs' = bit_len bs)
      [BitSet_set debug (Some bs) index;
       BitSet_clear debug (Some bs) index;
       BitSet_flip debug (Some bs) index].
Proof.
  intros Hinit Hother.
  pose proof Hinit as (Hn & l & Hbits & _).
  pose proof Hother as (_ & lo & Hlo & _).
  assert (Hbyte : forall v, is_byte v ->
            initialized
              (mkBitSet (Some (replicate (Z.to_nat ((bit_len bs + 7) / 8)) v))
                 (bit_len bs))).
  { intros v Hv. by apply initialized_replicate. }
  split; [| intros index Hindex];
    repeat apply Forall_cons_2; try apply Forall_nil_2.
  - rewrite BitSet_set_all_ok by done. eexists. split_and!; [done | | done].
    apply Hbyte. unfold is_byte. lia.
  - rewrite BitSet_clear_all_ok by done. eexists. split_and!; [done | | done].
    apply Hbyte. unfold is_byte. lia.
  - destruct (not_effect debug bs l Hinit Hbits) as (l' & -> & Hi & _). eauto.
  - destruct (or_combines debug bs other l lo Hinit Hother Hbits Hlo)
      as (l' & -> & Hi & _). eauto.
  - destruct (and_combines debug bs other l lo Hinit Hother Hbits Hlo)
      as (l' & -> & Hi & _). eauto.
  - destruct (xor_combines debug bs other l lo Hinit Hother Hbits Hlo)
      as (l' & -> & Hi & _). eauto.
  - destruct (set_effect debug bs l index Hinit Hbits Hindex)
      as (l' & -> & Hi & _). eauto.
  - destruct (clear_effect debug bs l index Hinit Hbits Hindex)
      as (l' & -> & Hi & _). eauto.
  - destruct (flip_effect debug bs l index Hinit Hbits Hindex)
      as (l' & -> & Hi & _). eauto.
Qed.

Lemma operations_keep_initialized_witness :
  (let bs := mkBitSet (Some []) 0 in
   let other := mkBitSet (Some [10]) 8 in
   Forall (fun r => exists bs', r = Ok bs' /\ initialized bs' /\
                                bit_len bs' = bit_len bs)
     [BitSet_set_all true (Some bs);
      BitSet_clear_all true (Some bs);
      BitSet_not true (Some bs);
      BitSet_or true (Some bs) (Some other);
      BitSet_and true (Some bs) (Some other);
      BitSet_xor true (Some bs) (Some other)] /\
   forall index, 0 <= index < bit_len bs ->
     Forall (fun r => exists bs', r = Ok bs' /\ initialized bs' /\
                                  bit_len bs' = bit_len bs)
       [BitSet_set true (Some bs) index;
        BitSet_clear true (Some bs) index;
        BitSet_flip true (Some bs) index]) /\
  (let bs := mkBitSet (Some [5; 10]) 12 in
   let other := mkBitSet (Some [10]) 8 in
   Forall (fun r => exists bs', r = Ok bs' /\ initialized bs' /\
                                bit_len bs' = bit_len bs)
     [BitSet_set_all true (Some bs);
      BitSet_clear_all true (Some bs);
      BitSet_not true (Some bs);
      BitSet_or true (Some bs) (Some other);
      BitSet_and true (Some bs) (Some other);
      BitSet_xor true (Some bs) (Some other)] /\
   forall index, 0 <= index < bit_len bs ->
     Forall (fun r => exists bs', r = Ok bs' /\ initialized bs' /\
                                  bit_len bs' = bit_len bs)
       [BitSet_set true (Some bs) index;
        BitSet_clear true (Some bs) index;
        BitSet_flip true (Some bs) index]).
Proof.
  split.
  - apply (operations_keep_initialized true (mkBitSet (Some []) 0)
             (mkBitSet (Some [10]) 8)).
    + concrete_initialized (@nil Z).
    + concrete_initialized [10].
  - apply (operations_keep_initialized true (mkBitSet (Some [5; 10]) 12)
             (mkBitSet (Some [10]) 8)).
    + concrete_initialized [5; 10].
    + concrete_initialized [10].
Defined.

(** ** Comparison as an equivalence *)

(** X21: On initialized BitSets, the one of 0 bits included, [equals]
    returns 1 exactly when the two have the same bit length and the same
    storage, and 0 otherwise; so it returns 1 on a BitSet and itself, does
    not depend on the order of its arguments, and two BitSets it reports
    equal give the same outcome of [get] at every index. *)
Theorem equals_decides_equality (debug : bool) (a b : BitSet) :
  initialized a -> initialized b ->
  (BitSet_equals debug (Some a) (Some b) = Ok 1 <-> a = b) /\
  (BitSet_equals debug (Some a) (Some b) = Ok 0 <-> a <> b) /\
  BitSet_equals debug (Some a) (Some a) = Ok 1 /\
  BitSet_equals debug (Some a) (Some b)
  = BitSet_equals debug (Some b) (Some a) /\
  (BitSet_equals debug (Some a) (Some b) = Ok 1 ->
     forall index,
       BitSet_get debug (Some a) index = BitSet_get debug (Some b) index).
Proof.
  intros Ha Hb.
  pose proof Ha as (_ & la & Hla & _). pose proof Hb as (_ & lb & Hlb & _).
  rewrite (BitSet_equals_ok debug a b la lb),
    (BitSet_equals_ok debug b a lb la),
    (BitSet_equals_ok debug a a la la) by done.
  rewrite Z.eqb_refl. destruct (decide (la = la)) as [_ |]; [| done].
  assert (Heq : a = b <-> bit_len a = bit_len b /\ la = lb).
  { split.
    - intros <-. split; [done | congruence].
    - intros [Hlen ->]. destruct a as [pa na], b as [pb nb]. simpl in *.
      congruence. }
  destruct (Z.eqb_spec (bit_len a) (bit_len b)) as [Hlen | Hlen],
    (Z.eqb_spec (bit_len b) (bit_len a)) as [Hlen' | Hlen']; try congruence.
  - destruct (decide (la = lb)) as [Hl | Hl].
    + rewrite decide_True by done.
      assert (a = b) as <- by (by apply Heq). by split_and!.
    + rewrite decide_False by congruence.
      assert (a <> b) by (intros [_ ?]%Heq; done). by split_and!.
  - assert (a <> b) by (intros [? _]%Heq; done). by split_and!.
Qed.

Lemma equals_decides_equality_witness :
  (let a := mkBitSet (Some [5; 10]) 12 in
   let b := mkBitSet (Some [7; 2]) 12 in
   (BitSet_equals true (Some a) (Some b) = Ok 1 <-> a = b) /\
   (BitSet_equals true (Some a) (Some b) = Ok 0 <-> a <> b) /\
   BitSet_equals true (Some a) (Some a) = Ok 1 /\
   BitSet_equals true (Some a) (Some b)
   = BitSet_equals true (Some b) (Some a) /\
   (BitSet_equals true (Some a) (Some b) = Ok 1 ->
      forall index,
        BitSet_get true (Some a) index = BitSet_get true (Some b) index)) /\
  (let a := mkBitSet (Some []) 0 in
   let b := mkBitSet (Some []) 0 in
   (BitSet_equals true (Some a) (Some b) = Ok 1 <-> a = b) /\
   (BitSet_equals true (Some a) (Some b) = Ok 0 <-> a <> b) /\
   BitSet_equals true (Some a) (Some a) = Ok 1 /\
   BitSet_equals true (Some a) (Some b)
   = BitSet_equals true (Some b) (Some a) /\
   (BitSet_equals true (Some a) (Some b) = Ok 1 ->
      forall index,
        BitSet_get true (Some a) index = BitSet_get true (Some b) index)).
Proof.
  split.
  - apply (equals_decides_equality true (mkBitSet (Some [5; 10]) 12)
             (mkBitSet (Some [7; 2]) 12)).
    + concrete_initialized [5; 10].
    + concrete_initialized [7; 2].
  - apply (equals_decides_equality true (mkBitSet (Some []) 0)
             (mkBitSet (Some []) 0)); concrete_initialized (@nil Z).
Defined.

(** ** More on the index mapping *)

(** X22: For coordinates inside extents whose product is at most [2^64],
    [linear_index] returns an offset below the product, and different
    coordinate tuples get different offsets. *)
Theorem linear_index_injective (dims indices1 indices2 : list Z) :
  Forall2 in_extent indices1 dims -> Forall2 in_extent indices2 dims ->
  product dims <= SIZE_MAX + 1 ->
  exists i1 i2,
    linear_index (Z.of_nat (length dims)) (Some dims) (Some indices1) = Ok i1 /\
    linear_index (Z.of_nat (length dims)) (Some dims) (Some indices2) = Ok i2 /\
    0 <= i1 < product dims /\ 0 <= i2 < product dims /\
    (i1 = i2 -> indices1 = indices2).
Proof.
  intros H1 H2 Hprod.
  pose proof (row_major_bound dims indices1 H1) as Hb1.
  pose proof (row_major_bound dims indices2 H2) as Hb2.
  exists (row_major dims indices1), (row_major dims indices2).
  split_and!; [| | lia | lia | lia | lia |].
  - rewrite linear_index_spec by (by eapply Forall2_length).
    by rewrite wrap_small by lia.
  - rewrite linear_index_spec by (by eapply Forall2_length).
    by rewrite wrap_small by lia.
  - intros Heq.
    pose proof (coords_row_major dims indices1 H1) as E1.
    pose proof (coords_row_major dims indices2 H2) as E2.
    rewrite Heq in E1. congruence.
Qed.

Lemma linear_index_injective_witness :
  exists i1 i2,
    linear_index 3 (Some [3; 4; 5]) (Some [2; 0; 4]) = Ok i1 /\
    linear_index 3 (Some [3; 4; 5]) (Some [1; 3; 4]) = Ok i2 /\
    0 <= i1 < product [3; 4; 5] /\ 0 <= i2 < product [3; 4; 5] /\
    (i1 = i2 -> [2; 0; 4] = [1; 3; 4]).
Proof.
  apply (linear_index_injective [3; 4; 5] [2; 0; 4] [1; 3; 4]);
    [| | vm_compute; discriminate].
  - repeat constructor; lia.
  - repeat constructor; lia.
Defined.

(** X23: For positive extents and every index [inverse_linear_index]
    writes coordinates that lie inside the extents, and [linear_index] of
    these coordinates is the index reduced modulo the product of the
    extents, taken modulo [2^64]; when the product of the extents is at
    most [2^64] nothing wraps and this is the index modulo the product, so
    the index itself when it is below the product. *)
Theorem inverse_then_linear (dims out : list Z) (index : Z) :
  Forall (fun d => 0 < d) dims ->
  Z.of_nat (length dims) <= SIZE_MAX ->
  length out = length dims ->
  exists cs,
    inverse_linear_index (Z.of_nat (length dims)) (Some dims) index (Some out)
    = Ok (Some cs) /\
    Forall2 in_extent cs dims /\
    linear_index (Z.of_nat (length dims)) (Some dims) (Some cs)
    = Ok (wrap (index mod product dims)) /\
    (product dims <= SIZE_MAX + 1 ->
       linear_index (Z.of_nat (length dims)) (Some dims) (Some cs)
       = Ok (index mod product dims) /\
       (0 <= index < product dims ->
          linear_index (Z.of_nat (length dims)) (Some dims) (Some cs)
          = Ok index)).
Proof.
  intros Hpos Hsize Hout.
  pose proof (product_pos dims Hpos) as HP.
  pose proof (Z.mod_pos_bound index (product dims) HP) as Hmod.
  assert (Hlin : linear_index (Z.of_nat (length dims)) (Some dims)
                   (Some (coords dims index))
                 = Ok (wrap (index mod product dims))).
  { rewrite linear_index_spec by apply coords_length.
    by rewrite row_major_coords by done. }
  exists (coords dims index). split_and!.
  - by apply inverse_linear_index_spec.
  - by apply coords_in_extent.
  - done.
  - intros Hprod. rewrite Hlin, wrap_small by lia.
    split; [done |]. intros Hindex. by rewrite Z.mod_small.
Qed.

Lemma inverse_then_linear_witness :
  exists cs,
    inverse_linear_index 3 (Some [3; 4; 5]) 107 (Some [0; 0; 0])
    = Ok (Some cs) /\
    Forall2 in_extent cs [3; 4; 5] /\
    linear_index 3 (Some [3; 4; 5]) (Some cs)
    = Ok (wrap (107 mod product [3; 4; 5])) /\
    (product [3; 4; 5] <= SIZE_MAX + 1 ->
       linear_index 3 (Some [3; 4; 5]) (Some cs)
       = Ok (107 mod product [3; 4; 5]) /\
       (0 <= 107 < product [3; 4; 5] ->
          linear_index 3 (Some [3; 4; 5]) (Some cs) = Ok 107)).
Proof.
  apply (inverse_then_linear [3; 4; 5] [0; 0; 0] 107);
    [| vm_compute; discriminate | reflexivity].
  repeat constructor; lia.
Defined.

(** Extents [2^32; 2^32; 2], of product [2^65]: the coordinates of index 5
    are [0; 2; 1], inside the extents, and [linear_index] gives back 5. *)
Example inverse_then_linear_run :
  inverse_linear_index 3 (Some [2 ^ 32; 2 ^ 32; 2]) 5 (Some [0; 0; 0])
  = Ok (Some [0; 2; 1])
  /\ linear_index 3 (Some [2 ^ 32; 2 ^ 32; 2]) (Some [0; 2; 1]) = Ok 5.
Proof. by vm_compute. Qed.

(** The loop of [inverse_linear_index] with a zero among the extents it
    still has to visit. *)
Lemma inverse_loop_zero (dims : list Z) :
  Z.of_nat (length dims) <= SIZE_MAX ->
  forall (count i : nat) index (out : option (list Z)),
    (i + count = length dims)%nat ->
    Exists (fun d => d = 0) (take count dims) ->
    for_range count (Z.of_nat i)
      (inverse_linear_index_body (Z.of_nat (length dims)) (Some dims))
      (index, out)
    = Undefined.
Proof.
  intros Hsize. induction count as [| count IH]; intros i index out Hi Hzero.
  - rewrite take_0 in Hzero. by apply Exists_nil in Hzero.
  - destruct (lookup_lt_is_Some_2 dims count ltac:(lia)) as [d Hd].
    rewrite (take_S_r dims count d Hd) in Hzero.
    rewrite for_range_succ. unfold inverse_linear_index_body at 1.
    assert (Hdim : wrap (wrap (Z.of_nat (length dims) - 1) - Z.of_nat i)
                   = Z.of_nat count).
    { rewrite (wrap_small (_ - 1)) by lia. rewrite wrap_small by lia. lia. }
    rewrite Hdim.
    rewrite (load_Some dims (Z.of_nat count) d) by (lia || by rewrite Nat2Z.id).
    cbn [bind]. unfold size_mod, size_div.
    destruct (Z.eqb_spec d 0) as [-> | Hne]; [done |]. cbn [bind].
    destruct (store out (Z.of_nat count) (index mod d)) as [out' | |] eqn:Hst.
    + cbn [bind]. replace (Z.of_nat i + 1) with (Z.of_nat (S i)) by lia.
      apply IH; [lia |].
      apply Exists_app in Hzero as [Hzero | Hzero]; [done |].
      apply Exists_cons in Hzero as [-> | Hzero]; [done |].
      by apply Exists_nil in Hzero.
    + exfalso. destruct out as [l |]; [| done]. simpl in Hst.
      by destruct (_ && _).
    + done.
Qed.

(** X24: An extent of 0 makes [inverse_linear_index] divide by zero: the call
    is undefined for every index and every output array. *)
Theorem inverse_zero_extent (dims : list Z) (index : Z)
    (out : option (list Z)) :
  Exists (fun d => d = 0) dims ->
  Z.of_nat (length dims) <= SIZE_MAX ->
  inverse_linear_index (Z.of_nat (length dims)) (Some dims) index out
  = Undefined.
Proof.
  intros Hzero Hsize. unfold inverse_linear_index, for_upto.
  rewrite Nat2Z.id.
  pose proof (inverse_loop_zero dims Hsize (length dims) 0 index out) as Hrun.
  change (Z.of_nat 0) with 0 in Hrun.
  rewrite Hrun; [done | done |]. by rewrite firstn_all.
Qed.

Lemma inverse_zero_extent_witness :
  inverse_linear_index 3 (Some [3; 0; 5]) 7 (Some [0; 0; 0]) = Undefined.
Proof.
  apply (inverse_zero_extent [3; 0; 5] 7 (Some [0; 0; 0]));
    [| vm_compute; discriminate].
  apply Exists_cons_tl, Exists_cons_hd. reflexivity.
Defined.

(** X25: [linear_index] checks nothing: with [num_dims] entries in both arrays
    it returns, for any extents and any coordinates, the row-major offset
    reduced modulo [2^64]; with no dimensions it returns 0 without
    touching the arrays. *)
Theorem linear_index_wraps (dims indices : list Z) (p q : option (list Z)) :
  length indices = length dims ->
  linear_index (Z.of_nat (length dims)) (Some dims) (Some indices)
  = Ok (row_major dims indices mod 2 ^ 64) /\
  linear_index 0 p q = Ok 0.
Proof.
  intros Hlen. split; [| done]. by rewrite linear_index_spec.
Qed.

Lemma linear_index_wraps_witness :
  linear_index 2 (Some [3; 2 ^ 63]) (Some [2; 1])
  = Ok (row_major [3; 2 ^ 63] [2; 1] mod 2 ^ 64) /\
  linear_index 0 None None = Ok 0.
Proof.
  apply (linear_index_wraps [3; 2 ^ 63] [2; 1] None None). reflexivity.
Defined.

(** X26: With fewer than [num_dims] entries in either array (or a [NULL]
    array) and at least one dimension, [linear_index] reads outside the
    array in its first iteration. *)
Theorem linear_index_short_array (num_dims : Z)
    (dims indices : option (list Z)) :
  0 < num_dims ->
  (forall l, dims = Some l -> Z.of_nat (length l) < num_dims) \/
  (forall l, indices = Some l -> Z.of_nat (length l) < num_dims) ->
  linear_index num_dims dims indices = Undefined.
Proof.
  intros Hn Hshort. unfold linear_index.
  destruct (Z.to_nat num_dims) as [| k] eqn:Hk; [lia |].
  cbn [linear_index_loop].
  assert (Hload : forall (p : option (list Z)),
            (forall l, p = Some l -> Z.of_nat (length l) < num_dims) ->
            load p (Z.of_nat k) = Undefined).
  { intros [l |] Hl; [| done]. specialize (Hl l eq_refl). unfold load.
    destruct (Z.ltb_spec (Z.of_nat k) 0); [done |].
    rewrite lookup_ge_None_2; [done | lia]. }
  destruct Hshort as [Hd | Hi].
  - rewrite (Hload dims Hd).
    unfold load at 1. destruct indices as [l |]; [| done].
    destruct (Z.of_nat k <? 0); [done |].
    by destruct (l !! Z.to_nat (Z.of_nat k)).
  - by rewrite (Hload indices Hi).
Qed.

Lemma linear_index_short_array_witness :
  linear_index 3 (Some [3; 4; 5]) (Some [1; 2]) = Undefined.
Proof.
  apply (linear_index_short_array 3 (Some [3; 4; 5]) (Some [1; 2])); [lia |].
  right. intros l [= <-]. simpl. lia.
Defined.

(** ** The demonstration program *)

(** X27: [main] writes the hundred bits, of which only bit 3 is set, in rows
    of ten, an empty line, and the same block again for the copy, and
    returns 0, when both allocations are granted, whatever the stack and
    the fresh block held.  When [BitSet_init] or [BitSet_copy_construct]
    is refused its 13 bytes, the debug build stops in that function's
    allocation assertion and the fast build goes on to write through the
    [NULL] pointer. *)
Theorem main_outcome (debug : bool) (alloc1 alloc2 : Z -> bool)
    (garbage : nat -> Z) (stack1 stack2 : BitSet) :
  let block :=
    (lines ("0001000000" :: replicate 9 "0000000000") ++ nl)%string in
  main debug alloc1 alloc2 garbage stack1 stack2
  = if alloc1 13 then
      if alloc2 13 then Ok ((block ++ nl ++ block)%string, 0)
      else if debug
           then Trap "BitSet_copy_construct: Memory allocation failed"
           else Undefined
    else if debug then Trap "BitSet_init: Memory allocation failed"
         else Undefined.
Proof.
  intros block. subst block. unfold main.
  assert (Hinit : BitSet_init debug alloc1 (Some stack1) 100
                  = if alloc1 13
                    then Ok (mkBitSet (Some (replicate 13 0)) 100)
                    else if debug
                         then Trap "BitSet_init: Memory allocation failed"
                         else Ok (mkBitSet None 100)).
  { unfold BitSet_init, BitSet_get_byte_len, calloc. simpl.
    rewrite !BITSET_ASSERT_true. simpl.
    change (wrap (100 + 7) / 8) with 13. change (13 * 1) with 13.
    change (13 <=? SIZE_MAX) with true. simpl.
    destruct (alloc1 13); destruct debug; reflexivity. }
  rewrite Hinit. destruct (alloc1 13).
  - cbn [bind].
    change (linear_index 2 (Some [2; 2]) (Some [1; 1])) with (@Ok Z 3).
    cbn [bind].
    assert (Hset : BitSet_set debug
                     (Some (mkBitSet (Some (replicate 13 0)) 100)) 3
                   = Ok (mkBitSet (Some (8 :: replicate 12 0)) 100))
      by (by destruct debug).
    rewrite Hset. cbn [bind].
    assert (Hprint : BitSet_print debug
                       (Some (mkBitSet (Some (8 :: replicate 12 0)) 100)) 10
                     = Ok (lines ("0001000000" :: replicate 9 "0000000000")
                           ++ nl)%string)
      by (destruct debug; vm_compute; reflexivity).
    rewrite Hprint. cbn [bind].
    assert (Hcopy : BitSet_copy_construct debug alloc2 garbage (Some stack2)
                      (Some (mkBitSet (Some (8 :: replicate 12 0)) 100))
                    = if alloc2 13
                      then Ok (mkBitSet (Some (8 :: replicate 12 0)) 100)
                      else if debug
                           then Trap ("BitSet_copy_construct: "
                                      ++ "Memory allocation failed")
                           else Undefined).
    { unfold BitSet_copy_construct, BitSet_get_byte_len, malloc. simpl.
      rewrite !BITSET_ASSERT_true. simpl.
      change (wrap (100 + 7) / 8) with 13.
      change (wrap (13 * 1)) with 13.
      destruct (alloc2 13); destruct debug; reflexivity. }
    rewrite Hcopy. destruct (alloc2 13).
    + cbn [bind]. rewrite Hprint. cbn [bind].
      unfold BitSet_free. simpl. rewrite !BITSET_ASSERT_true.
      vm_compute. reflexivity.
    + by destruct debug.
  - by destruct debug.
Qed.

(** ** Size of the printed text *)

Lemma string_length_app (s1 s2 : string) :
  String.length (s1 ++ s2) = (String.length s1 + String.length s2)%nat.
Proof. induction s1 as [| c s1 IH]; simpl; [done | by rewrite IH]. Qed.

Lemma div_succ_step k g :
  0 <= k -> 0 < g ->
  (k + 1) / g = k / g + (if (k + 1) mod g =? 0 then 1 else 0).
Proof.
  intros Hk Hg.
  pose proof (Z.div_mod k g ltac:(lia)) as Hdm.
  pose proof (Z.mod_pos_bound k g Hg) as Hr.
  destruct (Z.eq_dec (k mod g + 1) g) as [Hfull | Hpart].
  - rewrite <- (Z.mod_unique_pos (k + 1) g (k / g + 1) 0) by lia.
    rewrite <- (Z.div_unique_pos (k + 1) g (k / g + 1) 0) by lia. done.
  - rewrite <- (Z.mod_unique_pos (k + 1) g (k / g) (k mod g + 1)) by lia.
    rewrite <- (Z.div_unique_pos (k + 1) g (k / g) (k mod g + 1)) by lia.
    destruct (Z.eqb_spec (k mod g + 1) 0); lia.
Qed.

Lemma render_rows_length (l : list Z) group : forall n : nat,
  0 < group ->
  Z.of_nat (String.length
              (foldr String.append EmptyString
                 (render_index l group <$> seqZ 0 (Z.of_nat n))))
  = Z.of_nat n + Z.of_nat n / group.
Proof.
  intros n Hg. induction n as [| n IH].
  - simpl. by rewrite Z.div_0_l by lia.
  - rewrite seqZ_S, fmap_app, foldr_app. simpl.
    assert (Hacc : forall (rows : list string) (tail : string),
              String.length (foldr String.append tail rows)
              = (String.length (foldr String.append EmptyString rows)
                 + String.length tail)%nat).
    { induction rows as [| r rows IHr]; intros tail; simpl; [done |].
      rewrite !string_length_app, IHr. lia. }
    rewrite Hacc, Nat2Z.inj_add, IH.
    unfold render_index. rewrite string_app_empty_r, string_length_app.
    replace (Z.of_nat (S n)) with (Z.of_nat n + 1) by lia.
    rewrite (div_succ_step (Z.of_nat n) group) by lia.
    rewrite !Z.add_0_l.
    destruct (bit_of l (Z.of_nat n)), ((Z.of_nat n + 1) mod group =? 0);
      simpl; lia.
Qed.

(** X28: For a group size of at least 1, [BitSet_print] on an initialized
    BitSet writes [bit_len + bit_len / group + 1] characters: one per bit,
    one line break per full group, and the closing line break. *)
Theorem print_length (debug : bool) (bs : BitSet) (group : Z) :
  initialized bs -> 1 <= group <= INT_MAX ->
  exists out,
    BitSet_print debug (Some bs) group = Ok out /\
    Z.of_nat (String.length out) = bit_len bs + bit_len bs / group + 1.
Proof.
  intros Hinit Hgroup. pose proof Hinit as ([Hn0 _] & l & Hbits & _).
  exists (render l (bit_len bs) group). split.
  - unfold BitSet_print. simpl. rewrite BITSET_ASSERT_true. cbn [bind].
    unfold for_upto.
    rewrite (print_range debug bs l Hinit Hbits) by lia. cbn [bind].
    by rewrite Z2Nat.id by lia.
  - unfold render. rewrite string_length_app, Nat2Z.inj_add.
    rewrite <- (Z2Nat.id (bit_len bs)) at 1 by lia.
    rewrite render_rows_length by lia.
    rewrite Z2Nat.id by lia. done.
Qed.

Lemma print_length_witness :
  exists out,
    BitSet_print true (Some (mkBitSet (Some [5; 10]) 12)) 5 = Ok out /\
    Z.of_nat (String.length out) = 12 + 12 / 5 + 1.
Proof.
  apply (print_length true (mkBitSet (Some [5; 10]) 12) 5);
    [| vm_compute; split; discriminate].
  concrete_initialized [5; 10].
Defined.

(** ** Filled BitSets as operands *)

(** X29: With [zeros] what [clear_all] leaves of a BitSet and [ones] what
    [set_all] leaves of it: [or] with [zeros], [and] with [ones] and [xor]
    with [zeros] return the BitSet unchanged, [or] with [ones] returns
    [ones], [and] with [zeros] returns [zeros], and [xor] with [ones]
    returns what [not] returns. *)
Theorem combine_with_fills (debug : bool) (bs : BitSet) :
  initialized bs ->
  exists ones zeros,
    BitSet_set_all debug (Some bs) = Ok ones /\
    BitSet_clear_all debug (Some bs) = Ok zeros /\
    BitSet_or debug (Some bs) (Some zeros) = Ok bs /\
    BitSet_and debug (Some bs) (Some ones) = Ok bs /\
    BitSet_xor debug (Some bs) (Some zeros) = Ok bs /\
    BitSet_or debug (Some bs) (Some ones) = Ok ones /\
    BitSet_and debug (Some bs) (Some zeros) = Ok zeros /\
    BitSet_xor debug (Some bs) (Some ones) = BitSet_not debug (Some bs).
Proof.
  intros Hinit. pose proof Hinit as (Hn & l & Hbits & Hlen & _).
  destruct bs as [q n]. simpl in Hbits, Hlen, Hn. subst q.
  set (k := Z.to_nat ((n + 7) / 8)).
  assert (Hk : Z.of_nat k = (n + 7) / 8).
  { unfold k. apply Z2Nat.id, Z.div_pos; lia. }
  assert (H1 : initialized (mkBitSet (Some (replicate k 255)) n)).
  { apply initialized_replicate; [done |]. unfold is_byte. lia. }
  assert (H0 : initialized (mkBitSet (Some (replicate k 0)) n)).
  { apply initialized_replicate; [done |]. unfold is_byte. lia. }
  assert (Hb1 : forall p, 0 <= p -> (p <? 8 * ((n + 7) / 8)) = true ->
            bit_of (replicate k 255) p = true).
  { intros p Hp Hlt%Z.ltb_lt.
    rewrite bit_of_replicate, testbit_255;
      [done | apply Z.mod_pos_bound; lia | done |].
    rewrite Hk. apply Z.div_lt_upper_bound; lia. }
  assert (Hb0 : forall p, bit_of (replicate k 0) p = false).
  { intros p. unfold bit_of, byte_at.
    destruct (replicate k 0 !! Z.to_nat (p / 8)) as [x |] eqn:Hx; simpl.
    - apply lookup_replicate in Hx as [-> _]. apply Z.bits_0.
    - apply Z.bits_0. }
  assert (Hout : forall (l' : list Z) p,
            Z.of_nat (length l') = (n + 7) / 8 ->
            (p <? 8 * ((n + 7) / 8)) = false -> bit_of l' p = false).
  { intros l' p Hl' Hge%Z.ltb_ge. apply bit_of_out. lia. }
  exists (mkBitSet (Some (replicate k 255)) n),
    (mkBitSet (Some (replicate k 0)) n).
  rewrite BitSet_set_all_ok, BitSet_clear_all_ok by done.
  destruct (not_effect debug _ l Hinit eq_refl) as (ln & -> & Hin & Hbn).
  destruct (or_combines debug _ _ l _ Hinit H0 eq_refl eq_refl)
    as (l1 & -> & Hi1 & Hc1).
  destruct (and_combines debug _ _ l _ Hinit H1 eq_refl eq_refl)
    as (l2 & -> & Hi2 & Hc2).
  destruct (xor_combines debug _ _ l _ Hinit H0 eq_refl eq_refl)
    as (l3 & -> & Hi3 & Hc3).
  destruct (or_combines debug _ _ l _ Hinit H1 eq_refl eq_refl)
    as (l4 & -> & Hi4 & Hc4).
  destruct (and_combines debug _ _ l _ Hinit H0 eq_refl eq_refl)
    as (l5 & -> & Hi5 & Hc5).
  destruct (xor_combines debug _ _ l _ Hinit H1 eq_refl eq_refl)
    as (l6 & -> & Hi6 & Hc6).
  unfold combine_count in *. simpl in *. rewrite Z.min_id in *.
  split_and!; [done | done | | | | | |]; do 3 f_equal;
    apply (initialized_bits_ext (mkBitSet (Some l) n)); try done;
    intros p Hp.
  - rewrite Hc1, Hb0 by done.
    destruct (p <? _); [by rewrite orb_false_r | done].
  - rewrite Hc2 by done. destruct (p <? _) eqn:Hlt; [| done].
    by rewrite Hb1, andb_true_r.
  - rewrite Hc3, Hb0 by done.
    destruct (p <? _); [by rewrite xorb_false_r | done].
  - rewrite Hc4 by done. destruct (p <? _) eqn:Hlt.
    + by rewrite !Hb1, orb_true_r.
    + rewrite (Hout l), (Hout (replicate k 255)); try done.
      by rewrite length_replicate.
  - rewrite Hc5, Hb0 by done. destruct (p <? _) eqn:Hlt.
    + by rewrite andb_false_r.
    + by rewrite (Hout l).
  - rewrite Hc6, Hbn by done. destruct (p <? _) eqn:Hlt; [| done].
    by rewrite Hb1, xorb_true_r.
Qed.

Lemma combine_with_fills_witness :
  exists ones zeros,
    let bs := mkBitSet (Some [5; 10]) 12 in
    BitSet_set_all true (Some bs) = Ok ones /\
    BitSet_clear_all true (Some bs) = Ok zeros /\
    BitSet_or true (Some bs) (Some zeros) = Ok bs /\
    BitSet_and true (Some bs) (Some ones) = Ok bs /\
    BitSet_xor true (Some bs) (Some zeros) = Ok bs /\
    BitSet_or true (Some bs) (Some ones) = Ok ones /\
    BitSet_and true (Some bs) (Some zeros) = Ok zeros /\
    BitSet_xor true (Some bs) (Some ones) = BitSet_not true (Some bs).
Proof.
  apply (combine_with_fills true (mkBitSet (Some [5; 10]) 12)).
  concrete_initialized [5; 10].
Defined.
